(** * QuickStartGoingWithAzureStorageBlob: the quick start program of main.go

    A shallow embedding of [src/main.go] and of the storage workflows it
    drives.  The program is one sequential [main]: it loads credentials,
    creates a container, writes and uploads a sample file, lists the blobs of
    the container, downloads the blob again and, after the user pressed
    enter, cleans up.

    The file is organised as follows.
    - [Go]: errors as values, the outcome of a run, and the writer-style
      program type that collects what the program does to the outside.
    - [Azblob]: the part of the storage SDK the program calls.  Its code is
      not part of the repository; it is modelled after the specification.
    - [Main]: [handleErrors], the listing loop and [main], taken from
      main.go line by line.
    - The theorems, one block per property. *)

From Stdlib Require Import ZArith Lia.
From stdpp Require Import base list strings gmap pretty.
From Stdlib Require Import Strings.Byte.

#[local] Open Scope string_scope.
#[local] Open Scope list_scope.
#[local] Open Scope nat_scope.

(** [length] is the length of a list; the length of a string is written
    [String.length]. *)
#[local] Abbreviation length := List.length.

(* ===================================================================== *)
(** ** Go: values, errors and programs                                    *)
(* ===================================================================== *)

Module Go.

(** The line feed that Go writes as a backslash n. *)
Definition nl : string := String (Ascii.ascii_of_nat 10) EmptyString.

(** [[]byte(s)] *)
Definition bytes_of (s : string) : list byte := String.list_byte_of_string s.

(** A non-nil value of the interface [error].  [Error] is the text of
    [err.Error()].  [ServiceCode] is [Some c] exactly when the dynamic
    type of the value implements [azblob.StorageError], in which case the
    type assertion [err.(azblob.StorageError)] succeeds and
    [serr.ServiceCode()] is [c]. *)
Record error : Type := mkError {
  Error : string;
  ServiceCode : option string
}.

(** A variable of type [error] is [None] for nil. *)
Definition err := option error.

(** What the program does to the outside, in program order. *)
Inductive event : Type :=
| Stdout (text : string)
| LogFatal (text : string)
| OsOpen (path : string)
| IoReadAll (path : string)
| IoWriteFile (path : string) (data : list byte) (perm : Z)
| FileClose (path : string)
| OsRemove (path : string)
| StdinReadBytes (delim : string)
| NetCreate (container : string)
| NetUpload (container blob : string) (blockSize parallelism : Z)
| NetList (container : string) (marker : option string)
| NetDownload (container blob : string) (offset count : Z)
| NetBodyRead (container blob : string) (maxRetryRequests : Z)
| NetDelete (container : string).

(** How a piece of program ends. *)
Inductive outcome (A : Type) : Type :=
| Returned (a : A)
| Exited (code : Z)
| Panicked
| OutOfFuel.
Arguments Returned {A} a.
Arguments Exited {A} code.
Arguments Panicked {A}.
Arguments OutOfFuel {A}.

(** A program: the events it produced and how it ended. *)
Definition prog (A : Type) : Type := list event * outcome A.

Definition ret {A} (a : A) : prog A := ([], Returned a).

Definition bind {A B} (m : prog A) (k : A → prog B) : prog B :=
  match m with
  | (t, Returned a) => let '(t', o) := k a in (t ++ t', o)
  | (t, Exited c) => (t, Exited c)
  | (t, Panicked) => (t, Panicked)
  | (t, OutOfFuel) => (t, OutOfFuel)
  end.

Definition emit (e : event) : prog unit := ([e], Returned tt).

(** [fmt.Printf] with the format already expanded, and [fmt.Print]. *)
Definition Printf (s : string) : prog unit := emit (Stdout s).

(** [fmt.Println(s)] *)
Definition Println (s : string) : prog unit := emit (Stdout (s +:+ nl)).

(** [log.Fatal(s)]: the text is logged and the process exits with
    status 1; no deferred call runs. *)
Definition log_Fatal {A} (s : string) : prog A := ([LogFatal s], Exited 1).

(** A nil pointer dereference. *)
Definition panic {A} : prog A := ([], Panicked).

(** [defer d] around [body]: [d] runs when the function returns and when
    it panics, not when the process exits. *)
Definition with_defer {A} (d : event) (body : prog A) : prog A :=
  match body with
  | (t, Returned a) => (t ++ [d], Returned a)
  | (t, Panicked) => (t ++ [d], Panicked)
  | other => other
  end.

(** [for _, x := range xs { body x }] *)
Fixpoint for_range {X} (xs : list X) (body : X → prog unit) : prog unit :=
  match xs with
  | [] => ret tt
  | x :: rest => bind (body x) (λ _, for_range rest body)
  end.

End Go.

Import Go.

Notation "'let*' x ':=' m 'in' k" := (bind m (λ x, k))
  (at level 10, x binder, m at level 100, k at level 200, only parsing).
Notation "'run' m 'then' k" := (bind m (λ _, k))
  (at level 10, m at level 100, k at level 200, only parsing).

(* ===================================================================== *)
(** ** Azblob: what the program uses of the storage SDK                   *)
(* ===================================================================== *)

Module Azblob.

(** Modelled from the spec: the service code of the 409 answer to Create,
    a constant of the SDK that main.go names
    [azblob.ServiceCodeContainerAlreadyExists]. *)
Definition ServiceCodeContainerAlreadyExists : string :=
  "ContainerAlreadyExists".

(** Modelled from the spec: the range length that stands for "to the end
    of the blob", a constant of the SDK that main.go names
    [azblob.CountToEnd]. *)
Definition CountToEnd : Z := 0.

(** Modelled from the spec: the continuation marker of a listing, an
    optional string ([azblob.Marker{}] is the marker without a value). *)
Record Marker : Type := mkMarker { Val : option string }.

(** Modelled from the spec: the SDK's [NotDone] predicate.  A marker
    whose value is the empty string signals the end of the listing.  The
    marker without a value, [azblob.Marker{}], is the one main.go starts
    its loop from: it asks for the first page and is not done. *)
Definition NotDone (m : Marker) : bool :=
  match Val m with
  | None => true
  | Some v => negb (String.eqb v "")
  end.

Record BlobItem : Type := mkBlobItem { Name : string }.

(** The part of a list answer main.go reads: [NextMarker] and
    [Segment.BlobItems]. *)
Record ListBlobsFlatSegmentResponse : Type := mkListResponse {
  NextMarker : Marker;
  BlobItems : list BlobItem
}.

(** Modelled from the spec: the error of a download whose retries are
    used up. *)
Definition DownloadFailed : error := mkError "DownloadFailed" None.

(** Modelled from the spec: the answer to a Download request.  [dr_range]
    holds the bytes of the requested range as last committed, [dr_offset]
    the offset the range starts at, and [dr_drops] the behaviour of the
    connection: the i-th request issued for this stream loses its
    connection after delivering [dr_drops !! i] bytes; requests beyond the
    list are served to the end. *)
Record DownloadResponse : Type := mkDownloadResponse {
  dr_offset : nat;
  dr_range : list byte;
  dr_drops : list nat
}.

Record RetryReaderOptions : Type := mkRetryReaderOptions {
  MaxRetryRequests : Z
}.

(** Modelled from the spec: the retrying reader.  [pos] counts the bytes
    of the range already delivered to the caller.  A request is served
    from [pos] on; when its connection fails before the end of the range
    and a retry is left, the range request is issued again from the new
    position.  The result lists the offsets of the re-issued requests,
    the bytes delivered, and the error the caller sees. *)
Fixpoint read_stream (retries : nat) (drops : list nat)
    (off : nat) (range : list byte) (pos : nat) {struct drops}
  : list nat * list byte * err :=
  let rest := drop pos range in
  match drops with
  | [] => ([], rest, None)
  | d :: later =>
      if decide (length rest ≤ d) then ([], rest, None)
      else
        match retries with
        | O => ([], take d rest, Some DownloadFailed)
        | S r =>
            let '(reqs, data, e) := read_stream r later off range (pos + d) in
            ((off + (pos + d))%nat :: reqs, take d rest ++ data, e)
        end
  end.

(** The offsets at which a stream that starts at [from] and meets the
    connection failures [drops] asks again: each time the offset reached
    by the bytes delivered so far. *)
Fixpoint resume_offsets (from : nat) (drops : list nat) : list nat :=
  match drops with
  | [] => []
  | d :: later => (from + d) :: resume_offsets (from + d) later
  end.

(** Modelled from the spec: [resp.Body(opts)] followed by reading the
    stream to its end, as [bytes.Buffer.ReadFrom] does. *)
Definition Body_ReadFrom (resp : DownloadResponse) (o : RetryReaderOptions)
  : list nat * list byte * err :=
  read_stream (Z.to_nat (MaxRetryRequests o)) (dr_drops resp)
              (dr_offset resp) (dr_range resp) 0.

(** *** Upload *)

(** Modelled from the spec: the threshold up to which a blob is written
    by one request, 256MB for this service. *)
Definition BlockBlobMaxUploadBlobBytes : Z := 256 * 1024 * 1024.

(** The options main.go passes to [UploadFileToBlockBlob]. *)
Record UploadToBlockBlobOptions : Type := mkUploadOptions {
  BlockSize : Z;
  Parallelism : Z
}.

(** Modelled from the spec: the write requests of the blob protocol: the
    single put, the put of one block under an id, and the commit of an
    ordered block list. *)
Inductive request : Type :=
| PutBlob (data : list byte)
| PutBlock (id : nat) (data : list byte)
| PutBlockList (ids : list nat).

(** Modelled from the spec: a blob at the service: the blocks that are
    staged but not committed, and the committed content, which is all a
    reader sees. *)
Record blob_state : Type := mkBlob {
  staged : gmap nat (list byte);
  committed : option (list byte)
}.

Definition empty_blob : blob_state := mkBlob ∅ None.

(** Modelled from the spec: the errors of the service and of the upload
    workflow. *)
Definition InvalidBlockList : error :=
  mkError "InvalidBlockList" (Some "InvalidBlockList").
Definition BlobNotFound : error := mkError "BlobNotFound" (Some "BlobNotFound").
Definition UploadFailed : error := mkError "UploadFailed" None.

(** Modelled from the spec: what one request does to a blob.  A commit
    makes the concatenation of the listed blocks, in the order of the
    list, the content of the blob; it fails when a listed block is not
    staged. *)
Definition serve (req : request) (b : blob_state) : blob_state * err :=
  match req with
  | PutBlob d => (mkBlob ∅ (Some d), None)
  | PutBlock i d => (mkBlob (<[i := d]> (staged b)) (committed b), None)
  | PutBlockList ids =>
      match mapM (λ i, staged b !! i) ids with
      | Some blocks => (mkBlob ∅ (Some (concat blocks)), None)
      | None => (b, Some InvalidBlockList)
      end
  end.

(** Modelled from the spec: a request for the blob [name] of a container,
    whose blobs are kept by name. *)
Definition serve_at (name : string) (req : request) (s : gmap string blob_state)
  : gmap string blob_state * err :=
  let '(b, e) := serve req (default empty_blob (s !! name)) in
  (<[name := b]> s, e).

(** Modelled from the spec: requests are served in order up to the first
    that fails. *)
Fixpoint serve_all (name : string) (reqs : list request) (s : gmap string blob_state)
  : gmap string blob_state * err :=
  match reqs with
  | [] => (s, None)
  | r :: rest =>
      match serve_at name r s with
      | (s', None) => serve_all name rest s'
      | (s', Some e) => (s', Some e)
      end
  end.

(** Modelled from the spec: the payload cut into blocks of at most
    [B] bytes, in byte order. *)
Fixpoint split_blocks_fuel (fuel B : nat) (l : list byte) : list (list byte) :=
  match fuel with
  | O => []
  | S fuel' =>
      match l with
      | [] => []
      | _ => take B l :: split_blocks_fuel fuel' B (drop B l)
      end
  end.

Definition split_blocks (B : nat) (l : list byte) : list (list byte) :=
  split_blocks_fuel (length l) B l.

(** ceil(S/B) *)
Definition ceil_div (size B : nat) : nat := (size + B - 1) / B.

(** Modelled from the spec: the bounded worker pool.  Blocks wait in
    [pending] in byte order, at most [width] of them are in flight,
    [completed] lists the blocks in the order their uploads finished, and
    [failed] tells whether the upload of a block failed. *)
Record pool : Type := mkPool {
  pending : list (nat * list byte);
  inflight : list (nat * list byte);
  completed : list (nat * list byte);
  failed : bool
}.

(** Modelled from the spec: what the scheduler can do next: hand the next
    pending block to a free worker, or see the upload of the k-th block in
    flight finish or fail.  Uploads finish in any order. *)
Inductive action : Type :=
| Dispatch
| Complete (k : nat)
| Fail (k : nat).

(** Modelled from the spec: a block is dispatched only while fewer than
    [width] are in flight; a step that cannot be taken leaves the pool as
    it is. *)
Definition pool_step (width : nat) (p : pool) (a : action) : pool :=
  match a with
  | Dispatch =>
      match pending p with
      | blk :: rest =>
          if decide (length (inflight p) < width)
          then mkPool rest (inflight p ++ [blk]) (completed p) (failed p)
          else p
      | [] => p
      end
  | Complete k =>
      match inflight p !! k with
      | Some blk =>
          mkPool (pending p) (delete k (inflight p)) (completed p ++ [blk]) (failed p)
      | None => p
      end
  | Fail k =>
      match inflight p !! k with
      | Some _ => mkPool (pending p) (delete k (inflight p)) (completed p) true
      | None => p
      end
  end.

Definition run_pool (width : nat) (sched : list action) (p : pool) : pool :=
  foldl (pool_step width) p sched.

(** Blocks with their index in byte order as id. *)
Definition indexed (blocks : list (list byte)) : list (nat * list byte) :=
  imap (λ i b, (i, b)) blocks.

(** All blocks are uploaded: none waits, none is in flight, none failed. *)
Definition finished (p : pool) : bool :=
  bool_decide (pending p = [] ∧ inflight p = [] ∧ failed p = false).

Definition put_block (blk : nat * list byte) : request := PutBlock blk.1 blk.2.

Definition is_put_block (r : request) : bool :=
  match r with
  | PutBlock _ _ => true
  | _ => false
  end.

(** The blocks and the width of the pool that the options ask for. *)
Definition blocks_of (o : UploadToBlockBlobOptions) (payload : list byte)
  : list (list byte) :=
  split_blocks (Z.to_nat (BlockSize o)) payload.

Definition pool_width (o : UploadToBlockBlobOptions) : nat :=
  Z.to_nat (Parallelism o).

(** Modelled from the spec: the requests of one upload.  Up to the
    threshold the payload goes out in one put.  Above it the blocks are
    put as the pool finishes them, and when all are done one commit lists
    the block ids in byte order; when a block failed or the schedule
    ends before all are done, the upload fails with UploadFailed and nothing
    is committed. *)
Definition upload_requests (threshold : Z) (payload : list byte)
    (o : UploadToBlockBlobOptions) (sched : list action) : list request * err :=
  if decide (Z.of_nat (length payload) ≤ threshold)%Z then ([PutBlob payload], None)
  else
    let blocks := blocks_of o payload in
    let p := run_pool (pool_width o) sched (mkPool (indexed blocks) [] [] false) in
    let puts := put_block <$> completed p in
    if finished p
    then (puts ++ [PutBlockList (seq 0 (length blocks))], None)
    else (puts, Some UploadFailed).

(** Modelled from the spec: the upload workflow against the service. *)
Definition UploadFileToBlockBlob (threshold : Z) (s : gmap string blob_state)
    (name : string) (payload : list byte) (o : UploadToBlockBlobOptions)
    (sched : list action) : gmap string blob_state * err :=
  let '(reqs, e) := upload_requests threshold payload o sched in
  let '(s', e') := serve_all name reqs s in
  (s', match e' with Some _ => e' | None => e end).

(** One block after the other: dispatch, wait, and so on. *)
Definition sequential_schedule (n : nat) : list action :=
  mjoin (replicate n [Dispatch; Complete 0]).

(** *** Listing *)

(** Modelled from the spec: the names from the blob that the marker value
    indicates on. *)
Fixpoint from_marker (v : string) (names : list string) : list string :=
  match names with
  | [] => []
  | n :: rest => if String.eqb n v then names else from_marker v rest
  end.

(** Modelled from the spec: one call of the paginated listing of a
    container whose blobs have the names [names], with pages of
    [pageSize] names.  The marker without a value asks for the first
    page; the answer carries the page and the marker of the next one,
    which indicates the first blob not yet listed and is empty when the
    listing is complete. *)
Definition ListBlobsFlatSegment (names : list string) (pageSize : nat) (m : Marker)
  : option ListBlobsFlatSegmentResponse * err :=
  let rest := match Val m with
              | None => names
              | Some v => from_marker v names
              end in
  let next := match drop pageSize rest with
              | [] => ""
              | n :: _ => n
              end in
  (Some (mkListResponse (mkMarker (Some next)) (mkBlobItem <$> take pageSize rest)),
   None).

(** *** Download *)

(** Modelled from the spec: the Download request for [count] bytes from
    [offset] on, to the end of the blob when [count] is [CountToEnd].
    Only committed content is visible. *)
Definition Download (s : gmap string blob_state) (name : string)
    (offset count : Z) (drops : list nat) : option DownloadResponse * err :=
  match s !! name ≫= committed with
  | None => (None, Some BlobNotFound)
  | Some content =>
      let from := drop (Z.to_nat offset) content in
      let range := if decide (count = CountToEnd) then from
                   else take (Z.to_nat count) from in
      (Some (mkDownloadResponse (Z.to_nat offset) range drops), None)
  end.

End Azblob.

Import Azblob.

(* ===================================================================== *)
(** ** Main: the program of main.go                                       *)
(* ===================================================================== *)

Module Main.

(** [type Credentials struct], with the JSON member each field is
    filled from. *)
Record Credentials : Type := mkCredentials {
  AzureStorageAccountName : string;
  AzureStorageAccountKey : string
}.

Definition tag_AzureStorageAccountName : string := "azure_storage_account_name".
Definition tag_AzureStorageAccountKey : string := "azure_storage_access_key".

(** The surroundings of one run: what each call out of the program
    answers.  Library functions whose answer depends on their argument
    are functions here; every other call site has its own field. *)
Record Env : Type := mkEnv {
  (** [os.Open("credentials.json")]: the error, nil when the file opened *)
  open_credentials_err : err;
  (** what [ioutil.ReadAll] reads from the opened file *)
  credentials_bytes : string;
  (** [encoding/json]: the string that [json.Unmarshal] stores for the
      member [tag] of the document, [None] when it stores nothing
      (document invalid, member missing or not a string) *)
  json_member : string → string → option string;
  (** [azblob.NewSharedKeyCredential(name, key)]: the error *)
  NewSharedKeyCredential_err : string → string → err;
  (** [time.Now().UnixNano()] at the two calls of [randomString] *)
  UnixNano_container : Z;
  UnixNano_file : Z;
  (** [rand.New(rand.NewSource(seed)).Int()] *)
  rand_Int : Z → Z;
  (** [url.Parse]: whether it returns a URL (a nil URL otherwise) *)
  url_Parse_ok : string → bool;
  (** the errors of Create, WriteFile, Open and UploadFileToBlockBlob *)
  create_err : err;
  write_file_err : err;
  open_file_err : err;
  upload_err : err;
  (** [ListBlobsFlatSegment(ctx, marker, ...)]: the answer (nil when
    [None]) and the error; the container does not change while it is
    listed, so the answer depends on the marker only *)
  list_segment : Marker → option ListBlobsFlatSegmentResponse * err;
  (** [blobURL.Download]: the answer (nil when [None]) and the error *)
  download_response : option DownloadResponse;
  download_err : err;
  (** [containerURL.Delete]: the error *)
  delete_err : err
}.

(** [func randomString() string], given the clock reading it seeds with. *)
Definition randomString (env : Env) (now : Z) : string :=
  let r := rand_Int env now in
  pretty r.

(** [func handleErrors(err error)] *)
Definition handleErrors (e : err) : prog unit :=
  match e with
  | Some e' =>
      let fatal := log_Fatal (Error e') in
      match ServiceCode e' with
      | Some code =>
          if String.eqb code ServiceCodeContainerAlreadyExists
          then Println "Received 409. Container already exists"
          else fatal
      | None => fatal
      end
  | None => ret tt
  end.

(** [json.Unmarshal(byteValue, &credentials)]; its error is dropped. *)
Definition json_Unmarshal (env : Env) (byteValue : string) (c : Credentials)
  : Credentials :=
  {| AzureStorageAccountName :=
       default (AzureStorageAccountName c)
               (json_member env byteValue tag_AzureStorageAccountName);
     AzureStorageAccountKey :=
       default (AzureStorageAccountKey c)
               (json_member env byteValue tag_AzureStorageAccountKey) |}.

(** Lines 48 to 56: the value of [credentials] when line 58 tests it.
    When the file did not open, [credentialsFile] is nil and [ReadAll]
    reads nothing from it. *)
Definition load_credentials (env : Env) : Credentials :=
  let byteValue :=
    match open_credentials_err env with
    | None => credentials_bytes env
    | Some _ => ""
    end in
  json_Unmarshal env byteValue (mkCredentials "" "").

Section Listing.
Variable containerName : string.
Variable ListBlobsFlatSegment :
  Marker → option ListBlobsFlatSegmentResponse * err.
(** The loop condition, [marker.NotDone()]. *)
Variable not_done : Marker → bool.

(** Lines 112 to 125: [for marker := (azblob.Marker{}); marker.NotDone(); ]
    started at [marker]; [fuel] bounds the number of rounds. *)
Fixpoint listing_loop (fuel : nat) (marker : Marker) : prog unit :=
  if not_done marker then
    match fuel with
    | O => ([], OutOfFuel)
    | S fuel' =>
        run emit (NetList containerName (Val marker)) then
        let '(listBlob, e) := ListBlobsFlatSegment marker in
        run handleErrors e then
        match listBlob with
        | None => panic
        | Some listBlob =>
            let marker := NextMarker listBlob in
            run for_range (BlobItems listBlob)
                  (λ blobInfo, Printf (" Blob name: " +:+ Name blobInfo +:+ nl)) then
            listing_loop fuel' marker
        end
    end
  else ret tt.
End Listing.

Definition data : list byte := bytes_of ("hello world this is a blob" +:+ nl).

(** Lines 105 to 107: the options of the upload. *)
Definition upload_options : UploadToBlockBlobOptions :=
  mkUploadOptions (4 * 1024 * 1024) 16.

(** Line 131: the options of the body stream. *)
Definition retry_options : RetryReaderOptions := mkRetryReaderOptions 20.

(** Line 70: [containerName]. *)
Definition containerName (env : Env) : string :=
  "quickstart-" +:+ randomString env (UnixNano_container env).

(** Line 87: [fileName]. *)
Definition fileName (env : Env) : string :=
  randomString env (UnixNano_file env).

(** Lines 62 to 125 of [func main()]: from the shared key credential to
    the end of the listing loop. *)
Definition setup_and_list (fuel : nat) (env : Env) (credentials : Credentials)
  : prog unit :=
  match NewSharedKeyCredential_err env (AzureStorageAccountName credentials)
                                       (AzureStorageAccountKey credentials) with
  | Some e => log_Fatal ("Invalid credentials with error: " +:+ Error e)
  | None =>
  let containerName := containerName env in
  let URL := "https://" +:+ AzureStorageAccountName credentials
             +:+ ".blob.core.windows.net/" +:+ containerName in
  if negb (url_Parse_ok env URL) then panic else
  run Printf ("Creating a container named " +:+ containerName +:+ nl) then
  run emit (NetCreate containerName) then
  run handleErrors (create_err env) then
  run Printf ("Creating a dummy file to test the upload and download" +:+ nl) then
  let fileName := fileName env in
  run emit (IoWriteFile fileName data 448) then
  run handleErrors (write_file_err env) then
  run emit (OsOpen fileName) then
  run handleErrors (open_file_err env) then
  run Printf ("Uploading the file with blob name: " +:+ fileName +:+ nl) then
  run emit (NetUpload containerName fileName
              (BlockSize upload_options) (Parallelism upload_options)) then
  run handleErrors (upload_err env) then
  run Println "Listing the blobs in the container:" then
  listing_loop containerName (list_segment env) NotDone fuel (mkMarker None)
  end.

(** Lines 127 to 144 of [func main()]: the download, the gate on standard
    input and the cleanup.  The error of [Download] goes into [err] and is
    assigned again by [ReadFrom] before anything reads it.  [Body] reads
    the fields of the answer it is called on, so a nil answer panics.  The
    results of [ReadBytes], [Delete], [Close] and [Remove] are dropped. *)
Definition download_and_cleanup (env : Env) : prog unit :=
  let containerName := containerName env in
  let fileName := fileName env in
  run emit (NetDownload containerName fileName 0 CountToEnd) then
  match download_response env with
  | None => panic
  | Some downloadResponse =>
      run emit (NetBodyRead containerName fileName (MaxRetryRequests retry_options)) then
      let '(_, downloadedData, e) := Body_ReadFrom downloadResponse retry_options in
      run handleErrors e then
      run Printf ("Press enter key to delete the sample files, example cntainer, and exit the application." +:+ nl) then
      run emit (StdinReadBytes nl) then
      run Printf ("Cleaning up." +:+ nl) then
      run emit (NetDelete containerName) then
      run emit (FileClose fileName) then
      emit (OsRemove fileName)
  end.

(** Lines 62 to 144 of [func main()], after the credentials are checked. *)
Definition main_with (fuel : nat) (env : Env) (credentials : Credentials)
  : prog unit :=
  run setup_and_list fuel env credentials then
  download_and_cleanup env.

(** [func main()] *)
Definition main (fuel : nat) (env : Env) : prog unit :=
  run Printf ("Azure Blob Storage quick start sample" +:+ nl) then
  run emit (OsOpen "credentials.json") then
  run match open_credentials_err env with
      | Some e => Println (Error e)
      | None => ret tt
      end then
  run Println "Successfully loading credentials.json" then
  with_defer (FileClose "credentials.json")
    (run emit (IoReadAll "credentials.json") then
     let credentials := load_credentials env in
     if (String.length (AzureStorageAccountName credentials) =? 0)
        || (String.length (AzureStorageAccountKey credentials) =? 0)
     then log_Fatal "Either the AzureStorageAccountName or AzureStorageAccountKey variable is empty"
     else main_with fuel env credentials).

(** The same surroundings with another error returned by [Download],
    and with another error returned by [Delete]. *)
Definition with_download_err (e : err) (env : Env) : Env :=
  mkEnv (open_credentials_err env) (credentials_bytes env) (json_member env)
        (NewSharedKeyCredential_err env) (UnixNano_container env)
        (UnixNano_file env) (rand_Int env) (url_Parse_ok env) (create_err env)
        (write_file_err env) (open_file_err env) (upload_err env)
        (list_segment env) (download_response env) e (delete_err env).

Definition with_delete_err (e : err) (env : Env) : Env :=
  mkEnv (open_credentials_err env) (credentials_bytes env) (json_member env)
        (NewSharedKeyCredential_err env) (UnixNano_container env)
        (UnixNano_file env) (rand_Int env) (url_Parse_ok env) (create_err env)
        (write_file_err env) (open_file_err env) (upload_err env)
        (list_segment env) (download_response env) (download_err env) e.

End Main.

Import Main.

(* ===================================================================== *)
(** ** Observers of a run                                                 *)
(* ===================================================================== *)

Module Trace.

(** Requests that go to the storage service. *)
Definition is_network (ev : event) : bool :=
  match ev with
  | NetCreate _ | NetUpload _ _ _ _ | NetList _ _ | NetDownload _ _ _ _
  | NetBodyRead _ _ _ | NetDelete _ => true
  | _ => false
  end.

(** The two deletions of the cleanup: the container and the local file. *)
Definition is_deletion (ev : event) : bool :=
  match ev with
  | NetDelete _ | OsRemove _ => true
  | _ => false
  end.

(** The read of standard input up to a delimiter. *)
Definition is_gate (ev : event) : bool :=
  match ev with
  | StdinReadBytes _ => true
  | _ => false
  end.

Definition is_download (ev : event) : bool :=
  match ev with
  | NetDownload _ _ _ _ => true
  | _ => false
  end.

Definition is_body_read (ev : event) : bool :=
  match ev with
  | NetBodyRead _ _ _ => true
  | _ => false
  end.

Definition is_container_delete (ev : event) : bool :=
  match ev with
  | NetDelete _ => true
  | _ => false
  end.

(** Events of the last part of main.go, from the download on. *)
Definition is_late (ev : event) : bool :=
  match ev with
  | NetDownload _ _ _ _ | NetBodyRead _ _ _ | StdinReadBytes _
  | NetDelete _ | OsRemove _ => true
  | _ => false
  end.

(** The events that follow the first event satisfying [P]. *)
Fixpoint after (P : event → bool) (t : list event) : option (list event) :=
  match t with
  | [] => None
  | ev :: t' => if P ev then Some t' else after P t'
  end.

(** How often standard input is read. *)
Definition count_gates (t : list event) : nat := length (List.filter is_gate t).

(** A trace without a read of standard input and without a deletion. *)
Definition quiet (t : list event) : Prop :=
  Forall (λ ev, is_gate ev = false ∧ is_deletion ev = false) t.

(** What was written to standard output. *)
Definition stdout_lines (t : list event) : list string :=
  omap (λ ev, match ev with Stdout text => Some text | _ => None end) t.

(** The markers of the list calls. *)
Definition list_calls (t : list event) : list Marker :=
  omap (λ ev, match ev with NetList _ v => Some (mkMarker v) | _ => None end) t.

(** The line the loop prints for a blob. *)
Definition blob_line (name : string) : string := " Blob name: " +:+ name +:+ nl.

(** Each marker but the first is the one the service returned for the
    marker before it. *)
Fixpoint chained (svc : Marker → option ListBlobsFlatSegmentResponse * err)
    (ms : list Marker) : Prop :=
  match ms with
  | m :: ((m' :: _) as rest) =>
      (∃ r, (svc m).1 = Some r ∧ NextMarker r = m') ∧ chained svc rest
  | _ => True
  end.

Definition trace {A} (p : prog A) : list event := fst p.
Definition result {A} (p : prog A) : outcome A := snd p.

End Trace.

Import Trace.

(* ===================================================================== *)
(** ** Sample surroundings                                                *)
(* ===================================================================== *)

Module Samples.

Definition credentials_doc : string := "{account: quick, key: a2V5}".

Definition sample_json_member (doc tag : string) : option string :=
  if String.eqb doc credentials_doc then
    if String.eqb tag tag_AzureStorageAccountName then Some "quick"
    else if String.eqb tag tag_AzureStorageAccountKey then Some "a2V5"
    else None
  else None.

(** A run in which every call succeeds; the connection of the download
    fails three times. *)
Definition env_ok : Env := {|
  open_credentials_err := None;
  credentials_bytes := credentials_doc;
  json_member := sample_json_member;
  NewSharedKeyCredential_err := λ _ _, None;
  UnixNano_container := 1;
  UnixNano_file := 2;
  rand_Int := λ seed, (seed * 7919)%Z;
  url_Parse_ok := λ _, true;
  create_err := None;
  write_file_err := None;
  open_file_err := None;
  upload_err := None;
  list_segment := λ _,
    (Some (mkListResponse (mkMarker (Some "")) [mkBlobItem "15838"]), None);
  download_response := Some (mkDownloadResponse 0 data [3; 0; 5]);
  download_err := None;
  delete_err := None
|}.

Definition not_found : error := mkError "ContainerNotFound" (Some "ContainerNotFound").

(** The same run, but Delete answers with an error. *)
Definition env_delete_fails : Env := with_delete_err (Some not_found) env_ok.

(** A run whose credentials file is missing. *)
Definition env_no_credentials : Env := {|
  open_credentials_err := Some (mkError "open credentials.json: no such file or directory" None);
  credentials_bytes := "";
  json_member := sample_json_member;
  NewSharedKeyCredential_err := λ _ _, None;
  UnixNano_container := 1;
  UnixNano_file := 2;
  rand_Int := λ seed, (seed * 7919)%Z;
  url_Parse_ok := λ _, true;
  create_err := None;
  write_file_err := None;
  open_file_err := None;
  upload_err := None;
  list_segment := λ _, (None, None);
  download_response := None;
  download_err := None;
  delete_err := None
|}.

(** A payload of ten bytes, to be uploaded in blocks of three by two
    workers when the threshold is put at four bytes. *)
Definition payload10 : list byte := bytes_of "0123456789".

Definition options_3_2 : UploadToBlockBlobOptions := mkUploadOptions 3 2.

(** A schedule in which the blocks finish in the order 1, 0, 3, 2. *)
Definition interleaved : list action :=
  [Dispatch; Dispatch; Dispatch; Complete 1; Dispatch; Complete 0;
   Dispatch; Complete 1; Complete 0].

(** A schedule in which the upload of block 0 fails. *)
Definition block_fails : list action :=
  [Dispatch; Dispatch; Complete 1; Fail 0; Dispatch; Complete 0; Dispatch;
   Complete 0].

End Samples.

Import Samples.

(* ===================================================================== *)
(** ** Invariants of the upload                                           *)
(* ===================================================================== *)

(** No block is lost or doubled by the pool: waiting, in flight and done
    together are the blocks of the payload. *)
Definition pool_inv (blocks : list (list byte)) (p : pool) : Prop :=
  failed p = false →
  pending p ++ inflight p ++ completed p ≡ₚ indexed blocks.

(** The staged blocks after the puts of [l], in that order. *)
Definition stage_all (l : list (nat * list byte)) (m : gmap nat (list byte))
  : gmap nat (list byte) :=
  foldl (λ m blk, <[blk.1 := blk.2]> m) m l.

(** The blob under a name, the empty blob when there is none. *)
Definition blob_at (s : gmap string blob_state) (name : string) : blob_state :=
  default empty_blob (s !! name).

(** What a reader sees under a name. *)
Definition visible (s : gmap string blob_state) (name : string) : option (list byte) :=
  s !! name ≫= committed.

(* ===================================================================== *)
(** ** The listing of a container                                         *)
(* ===================================================================== *)

(** The names a marker stands for at the service. *)
Definition segment_start (names : list string) (m : Marker) : list string :=
  match Val m with
  | None => names
  | Some v => from_marker v names
  end.

(** The loop of main.go against a container with the blobs [names], listed
    in pages of [K]. *)
Definition list_container (c : string) (names : list string) (K fuel : nat)
  : prog unit :=
  listing_loop c (ListBlobsFlatSegment names K) NotDone fuel (mkMarker None).

(* ===================================================================== *)
(** ** The two halves of main                                             *)
(* ===================================================================== *)

(** What [main] does up to the test of line 58. *)
Definition preamble (env : Env) : list event :=
  [Stdout ("Azure Blob Storage quick start sample" +:+ nl);
   OsOpen "credentials.json"]
  ++ match open_credentials_err env with
     | Some e => [Stdout (Error e +:+ nl)]
     | None => []
     end
  ++ [Stdout ("Successfully loading credentials.json" +:+ nl);
      IoReadAll "credentials.json"].

Definition credentials_empty (c : Credentials) : bool :=
  (String.length (AzureStorageAccountName c) =? 0)
  || (String.length (AzureStorageAccountKey c) =? 0).

(** The error that [ReadFrom] returns for the body of a download answer,
    the value of [err] that line 136 hands to the handler. *)
Definition read_error (r : DownloadResponse) : err :=
  snd (Body_ReadFrom r retry_options).

Definition download_event (env : Env) : event :=
  NetDownload (containerName env) (fileName env) 0 CountToEnd.

Definition body_event (env : Env) : event :=
  NetBodyRead (containerName env) (fileName env) 20.

(** Lines 139 to 144. *)
Definition cleanup_events (env : Env) : list event :=
  [Stdout ("Press enter key to delete the sample files, example cntainer, and exit the application." +:+ nl);
   StdinReadBytes nl;
   Stdout ("Cleaning up." +:+ nl);
   NetDelete (containerName env);
   FileClose (fileName env);
   OsRemove (fileName env)].

(** The deferred close of the credentials file, by the way [main] ends. *)
Definition deferred {A} (o : outcome A) : list event :=
  match o with
  | Returned _ | Panicked => [FileClose "credentials.json"]
  | _ => []
  end.

(** A trace without any event of the last part of main.go. *)
Definition early (t : list event) : Prop := Forall (λ ev, is_late ev = false) t.

(** The order of the cleanup, as a run over the trace: [seen] tells whether
    standard input was read already.  A deletion is accepted only after
    the read, and a second read is not accepted. *)
Fixpoint gated (seen : bool) (t : list event) : bool :=
  match t with
  | [] => true
  | ev :: t' =>
      if is_gate ev then negb seen && gated true t'
      else if is_deletion ev then seen && gated seen t'
      else gated seen t'
  end.

(** How a run can go: it ends before the download; or it reaches the
    download, where a nil answer panics, a fatal read error exits, and
    otherwise the cleanup follows the gate. *)
Inductive run_shape (fuel : nat) (env : Env) : Prop :=
| ends_early t o :
    main fuel env = (t, o) → early t → o ≠ Returned tt →
    run_shape fuel env
| download_nil t :
    early t → download_response env = None →
    main fuel env =
      (t ++ [download_event env; FileClose "credentials.json"], Panicked) →
    run_shape fuel env
| read_fatal t r e :
    early t → download_response env = Some r →
    handleErrors (read_error r) = ([LogFatal (Error e)], Exited 1) →
    main fuel env =
      (t ++ [download_event env; body_event env; LogFatal (Error e)], Exited 1) →
    run_shape fuel env
| cleaned_up t r th :
    early t → download_response env = Some r →
    handleErrors (read_error r) = (th, Returned tt) → early th →
    main fuel env =
      (t ++ [download_event env; body_event env] ++ th
         ++ cleanup_events env ++ [FileClose "credentials.json"], Returned tt) →
    run_shape fuel env.

(* ===================================================================== *)
(** ** The whole run: steps, names and errors                             *)
(* ===================================================================== *)

(** The operations of main.go on the outside, by kind. *)
Inductive step : Type :=
| StepCreate
| StepWriteFile
| StepUpload
| StepList
| StepDownload
| StepBodyRead
| StepGate
| StepDelete
| StepRemove.

Definition step_of (ev : event) : option step :=
  match ev with
  | NetCreate _ => Some StepCreate
  | IoWriteFile _ _ _ => Some StepWriteFile
  | NetUpload _ _ _ _ => Some StepUpload
  | NetList _ _ => Some StepList
  | NetDownload _ _ _ _ => Some StepDownload
  | NetBodyRead _ _ _ => Some StepBodyRead
  | StdinReadBytes _ => Some StepGate
  | NetDelete _ => Some StepDelete
  | OsRemove _ => Some StepRemove
  | _ => None
  end.

Definition steps (t : list event) : list step := omap step_of t.

(** The steps of a run that goes through, with [n] pages listed. *)
Definition full_run (n : nat) : list step :=
  [StepCreate; StepWriteFile; StepUpload] ++ replicate n StepList
    ++ [StepDownload; StepBodyRead; StepGate; StepDelete; StepRemove].

Definition is_log_fatal (ev : event) : bool :=
  match ev with
  | LogFatal _ => true
  | _ => false
  end.

Definition is_close (ev : event) : bool :=
  match ev with
  | FileClose _ => true
  | _ => false
  end.

Definition is_stdout (ev : event) : bool :=
  match ev with
  | Stdout _ => true
  | _ => false
  end.

(** A run apart from what it prints. *)
Definition actions (t : list event) : list event :=
  List.filter (λ ev, negb (is_stdout ev)) t.

(** A program that logs a fatal message does so last and exits with
    status 1, and a program that exits has logged one. *)
Definition fatal_last {A} (p : prog A) : Prop :=
  match result p with
  | Exited c =>
      c = 1%Z
      ∧ ∃ t msg, trace p = t ++ [LogFatal msg]
                 ∧ Forall (λ ev, is_log_fatal ev = false) t
  | _ => Forall (λ ev, is_log_fatal ev = false) (trace p)
  end.

(** The events that lines 62 to 125 can produce. *)
Definition setup_event (ev : event) : bool :=
  match ev with
  | Stdout _ | LogFatal _ | NetCreate _ | IoWriteFile _ _ _ | OsOpen _
  | NetUpload _ _ _ _ | NetList _ _ => true
  | _ => false
  end.

(** The container and the blob an event names are those of the run. *)
Definition names_ok (env : Env) (ev : event) : Prop :=
  match ev with
  | NetCreate c | NetList c _ | NetDelete c => c = containerName env
  | NetUpload c b _ _ | NetDownload c b _ _ | NetBodyRead c b _ =>
      c = containerName env ∧ b = fileName env
  | IoWriteFile p _ _ | OsRemove p => p = fileName env
  | OsOpen p | FileClose p => p = "credentials.json" ∨ p = fileName env
  | IoReadAll p => p = "credentials.json"
  | Stdout _ | LogFatal _ | StdinReadBytes _ => True
  end.

(** The error is the storage error that [handleErrors] lets pass. *)
Definition conflict (e : error) : bool :=
  match ServiceCode e with
  | Some code => String.eqb code ServiceCodeContainerAlreadyExists
  | None => false
  end.

(** The same surroundings in which Create answers without error. *)
Definition with_create_ok (env : Env) : Env :=
  mkEnv (open_credentials_err env) (credentials_bytes env) (json_member env)
        (NewSharedKeyCredential_err env) (UnixNano_container env)
        (UnixNano_file env) (rand_Int env) (url_Parse_ok env)
        None (write_file_err env) (open_file_err env) (upload_err env)
        (list_segment env) (download_response env) (download_err env)
        (delete_err env).

(** Two programs that end alike and do the same apart from printing. *)
Definition sim {A} (p q : prog A) : Prop :=
  result p = result q ∧ actions (trace p) = actions (trace q).

(** The URL that line 73 parses. *)
Definition container_url (env : Env) : string :=
  "https://" +:+ AzureStorageAccountName (load_credentials env)
    +:+ ".blob.core.windows.net/" +:+ containerName env.

(** A decimal digit. *)
Definition is_digit (a : Ascii.ascii) : bool :=
  (48 <=? Ascii.nat_of_ascii a) && (Ascii.nat_of_ascii a <=? 57).

(** A string that starts with a decimal digit or with a minus sign. *)
Definition numeral_start (s : string) : bool :=
  match s with
  | String a _ => is_digit a || Ascii.eqb a (Ascii.ascii_of_nat 45)
  | EmptyString => false
  end.

(** Surroundings that differ from [env_ok] in one answer. *)
Definition env_bad_key : Env :=
  mkEnv None credentials_doc sample_json_member
        (λ _ _, Some (mkError "illegal base64 data at input byte 0" None))
        1 2 (λ seed, (seed * 7919)%Z) (λ _, true) None None None None
        (list_segment env_ok) (download_response env_ok) None None.

Definition env_bad_url : Env :=
  mkEnv None credentials_doc sample_json_member (λ _ _, None)
        1 2 (λ seed, (seed * 7919)%Z) (λ _, false) None None None None
        (list_segment env_ok) (download_response env_ok) None None.

Definition conflict_error : error :=
  mkError "The specified container already exists." (Some "ContainerAlreadyExists").

(** The sample run, but the container exists already. *)
Definition env_conflict : Env :=
  mkEnv None credentials_doc sample_json_member (λ _ _, None)
        1 2 (λ seed, (seed * 7919)%Z) (λ _, true)
        (Some conflict_error) None None None
        (list_segment env_ok) (download_response env_ok) None None.

(** A listing service that never comes to an end. *)
Definition endless_segment (m : Marker)
  : option ListBlobsFlatSegmentResponse * err :=
  (Some (mkListResponse (mkMarker (Some "next")) [mkBlobItem "blob"]), None).

(* ===================================================================== *)
(** * Properties                                                          *)
(* ===================================================================== *)

(** ** Programs: sequencing *)

Section Sequencing.
Context {A B : Type}.
Implicit Types (m : prog A) (k : A → prog B).

Lemma trace_bind m k :
  trace (bind m k) =
  trace m ++ match result m with Returned a => trace (k a) | _ => [] end.
Proof.
  destruct m as [t [a| | |]]; cbn; try (by rewrite app_nil_r).
  by destruct (k a).
Qed.

Lemma result_bind m k :
  result (bind m k) =
  match result m with
  | Returned a => result (k a)
  | Exited c => Exited c
  | Panicked => Panicked
  | OutOfFuel => OutOfFuel
  end.
Proof. destruct m as [t [a| | |]]; cbn; try done. by destruct (k a). Qed.

Lemma bind_returned t a k :
  bind (t, Returned a) k = (t ++ trace (k a), result (k a)).
Proof. cbn. by destruct (k a). Qed.
End Sequencing.

Lemma prog_eta {A} (p : prog A) : p = (trace p, result p).
Proof. by destruct p. Qed.

(** ** The error handler *)

(** The handler has three behaviours. *)
Lemma handleErrors_cases (e : err) :
  handleErrors e = ([], Returned tt)
  ∨ handleErrors e = ([Stdout ("Received 409. Container already exists" +:+ nl)], Returned tt)
  ∨ (∃ e', e = Some e' ∧ handleErrors e = ([LogFatal (Error e')], Exited 1)).
Proof.
  destruct e as [[msg [code|]]|]; cbn; eauto.
  destruct (String.eqb code ServiceCodeContainerAlreadyExists); eauto.
Qed.

(** C2. For every non-nil error given to [handleErrors]: when the error is
    a storage error whose service code is ContainerAlreadyExists, the
    handler prints the 409 line and returns; for every other error it logs
    the error and the process exits with status 1.  So the handler returns
    exactly for the ContainerAlreadyExists storage error. *)
Theorem handleErrors_sole_recoverable (e : error) :
  handleErrors (Some e) =
    (if decide (ServiceCode e = Some ServiceCodeContainerAlreadyExists)
     then ([Stdout ("Received 409. Container already exists" +:+ nl)], Returned tt)
     else ([LogFatal (Error e)], Exited 1))
  ∧ (result (handleErrors (Some e)) = Returned tt
     ↔ ServiceCode e = Some ServiceCodeContainerAlreadyExists).
Proof.
  destruct e as [msg [code|]]; cbn.
  - destruct (String.eqb_spec code ServiceCodeContainerAlreadyExists) as [->|Hne].
    + rewrite decide_True by done. done.
    + rewrite decide_False by congruence. split; [done|].
      split; [done|]. intros [=]. done.
  - rewrite decide_False by done. split; [done|]. split; done.
Qed.

(** The nil error passes the handler silently. *)
Lemma handleErrors_nil : handleErrors None = ([], Returned tt).
Proof. reflexivity. Qed.

(** ** Loading the credentials *)

Lemma string_length_zero (s : string) : (String.length s =? 0) = true ↔ s = "".
Proof.
  destruct s; cbn; [done|]. split; [done|]. done.
Qed.

Lemma credentials_empty_spec (c : Credentials) :
  credentials_empty c = true
  ↔ AzureStorageAccountName c = "" ∨ AzureStorageAccountKey c = "".
Proof.
  unfold credentials_empty. rewrite orb_true_iff, !string_length_zero. done.
Qed.

Lemma credentials_full_spec (c : Credentials) :
  credentials_empty c = false
  ↔ AzureStorageAccountName c ≠ "" ∧ AzureStorageAccountKey c ≠ "".
Proof.
  rewrite <- not_true_iff_false, credentials_empty_spec. tauto.
Qed.

Lemma main_empty_credentials fuel env :
  credentials_empty (load_credentials env) = true →
  main fuel env =
    (preamble env ++
     [LogFatal "Either the AzureStorageAccountName or AzureStorageAccountKey variable is empty"],
     Exited 1).
Proof.
  intros Hempty. unfold main, preamble.
  fold (credentials_empty (load_credentials env)). rewrite Hempty.
  destruct (open_credentials_err env) as [e|]; reflexivity.
Qed.

Lemma preamble_no_network env : Forall (λ ev, is_network ev = false) (preamble env).
Proof.
  unfold preamble. destruct (open_credentials_err env); repeat constructor.
Qed.

(** C6. When the account name or the access key of the loaded credentials
    is empty, [main] logs the fatal message of line 59 and the process exits
    with status 1, and no request went to the storage service before. *)
Theorem empty_credentials_fatal_before_network (fuel : nat) (env : Env) :
  AzureStorageAccountName (load_credentials env) = ""
  ∨ AzureStorageAccountKey (load_credentials env) = "" →
  result (main fuel env) = Exited 1
  ∧ last (trace (main fuel env)) =
      Some (LogFatal "Either the AzureStorageAccountName or AzureStorageAccountKey variable is empty")
  ∧ Forall (λ ev, is_network ev = false) (trace (main fuel env)).
Proof.
  intros Hempty%credentials_empty_spec.
  rewrite (main_empty_credentials _ _ Hempty). cbn [result trace fst snd].
  split; [done|]. split.
  - by rewrite last_snoc.
  - apply Forall_app. split; [apply preamble_no_network|]. by repeat constructor.
Qed.

Lemma empty_credentials_fatal_witness :
  result (main 0 env_no_credentials) = Exited 1
  ∧ last (trace (main 0 env_no_credentials)) =
      Some (LogFatal "Either the AzureStorageAccountName or AzureStorageAccountKey variable is empty")
  ∧ Forall (λ ev, is_network ev = false) (trace (main 0 env_no_credentials)).
Proof.
  apply (empty_credentials_fatal_before_network 0 env_no_credentials).
  left. reflexivity.
Defined.

(** The member names the two fields are filled from are those of the struct
    tags. *)
Lemma load_credentials_members env doc :
  open_credentials_err env = None → credentials_bytes env = doc →
  load_credentials env =
    mkCredentials (default "" (json_member env doc "azure_storage_account_name"))
                  (default "" (json_member env doc "azure_storage_access_key")).
Proof. intros Hopen Hdoc. unfold load_credentials. by rewrite Hopen, Hdoc. Qed.

(** C10. When [os.Open("credentials.json")] fails, and given that
    [json.Unmarshal] stores nothing for an empty document, [main] prints the
    error of [Open], then prints "Successfully loading credentials.json",
    reads and decodes without looking at their errors, and ends only at the
    test of line 58, with the fatal message of line 59. *)
Theorem open_failure_ends_at_credential_check (fuel : nat) (env : Env) (e : error) :
  open_credentials_err env = Some e →
  (∀ tag, json_member env "" tag = None) →
  main fuel env =
    ([Stdout ("Azure Blob Storage quick start sample" +:+ nl);
      OsOpen "credentials.json";
      Stdout (Error e +:+ nl);
      Stdout ("Successfully loading credentials.json" +:+ nl);
      IoReadAll "credentials.json";
      LogFatal "Either the AzureStorageAccountName or AzureStorageAccountKey variable is empty"],
     Exited 1).
Proof.
  intros Hopen Hjson.
  assert (Hload : load_credentials env = mkCredentials "" "").
  { unfold load_credentials, json_Unmarshal. by rewrite Hopen, !Hjson. }
  rewrite main_empty_credentials.
  - unfold preamble. by rewrite Hopen.
  - by rewrite Hload.
Qed.

Lemma open_failure_witness :
  main 5 env_no_credentials =
    ([Stdout ("Azure Blob Storage quick start sample" +:+ nl);
      OsOpen "credentials.json";
      Stdout ("open credentials.json: no such file or directory" +:+ nl);
      Stdout ("Successfully loading credentials.json" +:+ nl);
      IoReadAll "credentials.json";
      LogFatal "Either the AzureStorageAccountName or AzureStorageAccountKey variable is empty"],
     Exited 1).
Proof.
  apply (open_failure_ends_at_credential_check 5 env_no_credentials
           (mkError "open credentials.json: no such file or directory" None)).
  - reflexivity.
  - intros tag. reflexivity.
Defined.

(** ** The shape of a run *)

Lemma main_nonempty_credentials fuel env :
  credentials_empty (load_credentials env) = false →
  main fuel env =
    (preamble env
       ++ trace (main_with fuel env (load_credentials env))
       ++ deferred (result (main_with fuel env (load_credentials env))),
     result (main_with fuel env (load_credentials env))).
Proof.
  intros Hfull. unfold main, preamble.
  fold (credentials_empty (load_credentials env)). rewrite Hfull.
  destruct (main_with fuel env (load_credentials env)) as [t o].
  destruct (open_credentials_err env) as [e|]; destruct o; cbn;
    rewrite ?app_nil_r; reflexivity.
Qed.

(** Every run starts with the preamble, whatever [os.Open] answered: the
    line "Successfully loading credentials.json" is printed in every run. *)
Lemma main_starts_with_preamble fuel env :
  ∃ rest, trace (main fuel env) = preamble env ++ rest.
Proof.
  destruct (credentials_empty (load_credentials env)) eqn:Hcred.
  - rewrite main_empty_credentials by done. by eexists.
  - rewrite main_nonempty_credentials by done. by eexists.
Qed.

Lemma early_bind {A B} (m : prog A) (k : A → prog B) :
  early (trace m) → (∀ a, early (trace (k a))) → early (trace (bind m k)).
Proof.
  intros Hm Hk. rewrite trace_bind. apply Forall_app. split; [done|].
  destruct (result m); [apply Hk | constructor ..].
Qed.

Lemma early_emit (ev : event) : is_late ev = false → early (trace (emit ev)).
Proof. intros Hev. by repeat constructor. Qed.

Lemma early_handleErrors (e : err) : early (trace (handleErrors e)).
Proof.
  destruct (handleErrors_cases e) as [-> | [-> | (e' & _ & ->)]];
    by repeat constructor.
Qed.

Lemma early_for_range {X} (xs : list X) (body : X → prog unit) :
  (∀ x, early (trace (body x))) → early (trace (for_range xs body)).
Proof.
  intros Hbody. induction xs as [|x xs IH]; cbn [for_range].
  - constructor.
  - by apply early_bind.
Qed.

Lemma early_listing_loop c svc nd fuel marker :
  early (trace (listing_loop c svc nd fuel marker)).
Proof.
  revert marker. induction fuel as [|fuel IH]; intros marker; cbn [listing_loop];
    destruct (nd marker); try by constructor.
  apply early_bind; [by apply early_emit|]. intros _.
  destruct (svc marker) as [listBlob e].
  apply early_bind; [apply early_handleErrors|]. intros _.
  destruct listBlob as [listBlob|]; [|constructor].
  apply early_bind; [|by intros _].
  apply early_for_range. intros x. by apply early_emit.
Qed.

Lemma early_setup_and_list fuel env credentials :
  early (trace (setup_and_list fuel env credentials)).
Proof.
  unfold setup_and_list.
  destruct (NewSharedKeyCredential_err _ _ _); [by repeat constructor|].
  destruct (negb _); [constructor|].
  repeat (first
    [ apply early_listing_loop
    | apply early_bind; [first [by apply early_emit | apply early_handleErrors]|intros _] ]).
Qed.

Lemma early_preamble env : early (preamble env).
Proof.
  unfold preamble. destruct (open_credentials_err env); by repeat constructor.
Qed.

(** The last part, case by case. *)
Lemma download_and_cleanup_nil env :
  download_response env = None →
  download_and_cleanup env = ([download_event env], Panicked).
Proof. intros Hnil. unfold download_and_cleanup. by rewrite Hnil. Qed.

Lemma download_and_cleanup_some env r :
  download_response env = Some r →
  download_and_cleanup env =
    ([download_event env; body_event env]
       ++ trace (handleErrors (read_error r))
       ++ match result (handleErrors (read_error r)) with
          | Returned _ => cleanup_events env
          | _ => []
          end,
     match result (handleErrors (read_error r)) with
     | Returned _ => Returned tt
     | other => other
     end).
Proof.
  intros Hsome. unfold download_and_cleanup, read_error. rewrite Hsome.
  destruct (Body_ReadFrom r _) as [[reqs downloaded] e]. cbn [snd].
  destruct (handleErrors_cases e) as [-> | [-> | (e' & _ & ->)]]; reflexivity.
Qed.

Lemma main_run_shape fuel env : run_shape fuel env.
Proof.
  destruct (credentials_empty (load_credentials env)) eqn:Hcred.
  { eapply ends_early; [by apply main_empty_credentials| |done].
    apply Forall_app. split; [apply early_preamble | by repeat constructor]. }
  pose proof (main_nonempty_credentials fuel env Hcred) as Hmain.
  pose proof (early_setup_and_list fuel env (load_credentials env)) as Hearly.
  unfold main_with in Hmain.
  destruct (setup_and_list fuel env (load_credentials env)) as [t o].
  cbn [trace fst] in Hearly.
  assert (Hpre : early (preamble env ++ t)).
  { apply Forall_app. split; [apply early_preamble | done]. }
  destruct o as [[]|c| |].
  2-4: cbn [bind trace result fst snd deferred] in Hmain;
       rewrite ?app_nil_r, ?app_assoc in Hmain;
       refine (ends_early _ _ _ _ Hmain _ _); [|done];
       first [done | apply Forall_app; split; [done | by repeat constructor]].
  rewrite bind_returned in Hmain. cbn [trace result fst snd] in Hmain.
  destruct (download_response env) as [r|] eqn:Hresp.
  - rewrite (download_and_cleanup_some env r Hresp) in Hmain.
    cbn [trace result fst snd] in Hmain.
    destruct (handleErrors_cases (read_error r)) as [Hh | [Hh | (e' & _ & Hh)]];
      rewrite Hh in Hmain; cbn [trace result fst snd deferred] in Hmain.
    + eapply (cleaned_up _ _ (preamble env ++ t) r []); [done..|constructor|].
      rewrite Hmain. f_equal. by rewrite <- !app_assoc.
    + eapply (cleaned_up _ _ (preamble env ++ t) r); [done..|by repeat constructor|].
      rewrite Hmain. f_equal. by rewrite <- !app_assoc.
    + eapply (read_fatal _ _ (preamble env ++ t) r e'); [done..|].
      rewrite Hmain. f_equal. rewrite app_nil_r. by rewrite <- !app_assoc.
  - rewrite (download_and_cleanup_nil env Hresp) in Hmain.
    cbn [trace result fst snd deferred] in Hmain.
    eapply (download_nil _ _ (preamble env ++ t)); [done..|].
    rewrite Hmain. f_equal. by rewrite <- !app_assoc.
Qed.

(** ** Order of the cleanup *)

Lemma early_quiet t : early t → quiet t.
Proof.
  intros Ht. eapply Forall_impl; [exact Ht|]. intros ev Hev. by destruct ev.
Qed.

Lemma gated_app_quiet b t r : quiet t → gated b (t ++ r) = gated b r.
Proof.
  induction 1 as [|ev t [Hg Hd] _ IH]; [done|].
  cbn [app gated]. by rewrite Hg, Hd.
Qed.

Lemma gated_sound t : ∀ b pre ev post,
  gated b t = true → t = pre ++ ev :: post → is_deletion ev = true →
  b = true ∨ ∃ delim, In (StdinReadBytes delim) pre.
Proof.
  induction t as [|x t IH]; intros b pre ev post Hg Heq Hdel.
  { by destruct pre. }
  destruct pre as [|y pre]; cbn in Heq; injection Heq as -> ->.
  - cbn [gated] in Hg. rewrite Hdel in Hg.
    destruct (is_gate ev) eqn:Hgate; [by destruct ev|].
    apply andb_true_iff in Hg as [Hb _]. by left.
  - cbn [gated] in Hg. destruct (is_gate y) eqn:Hgate.
    + right. destruct y; try discriminate. eexists. by left.
    + assert (Hrest : gated b (pre ++ ev :: post) = true).
      { destruct (is_deletion y); [by apply andb_true_iff in Hg as [_ ?]|done]. }
      destruct (IH b pre ev post Hrest eq_refl Hdel) as [?|[delim Hin]]; [by left|].
      right. exists delim. by right.
Qed.

Lemma gated_count t : ∀ b,
  gated b t = true → count_gates t + (if b then 1 else 0) ≤ 1.
Proof.
  unfold count_gates.
  induction t as [|x t IH]; intros b Hg; [destruct b; cbn; lia|].
  cbn [gated List.filter] in *. destruct (is_gate x).
  - apply andb_true_iff in Hg as [Hb Hg]. destruct b; [done|].
    specialize (IH true Hg). cbn [length] in *. lia.
  - apply IH. destruct (is_deletion x); [by apply andb_true_iff in Hg as [_ ?]|done].
Qed.

Lemma count_gates_In delim t : In (StdinReadBytes delim) t → 1 ≤ count_gates t.
Proof.
  unfold count_gates. induction t as [|x t IH]; [done|].
  intros [->|Hin]; cbn [List.filter is_gate length]; [lia|].
  specialize (IH Hin). destruct (is_gate x); cbn [length]; lia.
Qed.

Lemma main_gated fuel env : gated false (trace (main fuel env)) = true.
Proof.
  destruct (main_run_shape fuel env)
    as [t o -> Ht _ | t Ht _ -> | t r e Ht _ _ -> | t r th Ht _ Hh Hth ->];
    cbn [trace fst].
  - rewrite <- (app_nil_r t). by rewrite gated_app_quiet by by apply early_quiet.
  - by rewrite gated_app_quiet by by apply early_quiet.
  - by rewrite gated_app_quiet by by apply early_quiet.
  - rewrite gated_app_quiet by by apply early_quiet.
    cbn [app gated download_event body_event is_gate is_deletion].
    by rewrite gated_app_quiet by by apply early_quiet.
Qed.

(** C8. In every run of [main], whenever the container is deleted or the
    local file is removed, standard input was read before, and it is read
    once in the run. *)
Theorem deletions_follow_the_gate
    (fuel : nat) (env : Env) (pre post : list event) (ev : event) :
  trace (main fuel env) = pre ++ ev :: post →
  is_deletion ev = true →
  (∃ delim, In (StdinReadBytes delim) pre)
  ∧ count_gates (trace (main fuel env)) = 1.
Proof.
  intros Hsplit Hdel.
  pose proof (main_gated fuel env) as Hg.
  destruct (gated_sound _ _ _ _ _ Hg Hsplit Hdel) as [?|[delim Hin]]; [done|].
  split; [by exists delim|].
  pose proof (gated_count _ _ Hg) as Hle. cbn beta iota in Hle.
  assert (1 ≤ count_gates (trace (main fuel env))); [|lia].
  rewrite Hsplit. apply (count_gates_In delim), in_or_app. by left.
Qed.

Lemma deletions_follow_the_gate_witness :
  (∃ delim, In (StdinReadBytes delim) (take 19 (trace (main 1 env_ok))))
  ∧ count_gates (trace (main 1 env_ok)) = 1.
Proof.
  apply (deletions_follow_the_gate 1 env_ok
           (take 19 (trace (main 1 env_ok)))
           (drop 20 (trace (main 1 env_ok)))
           (NetDelete "quickstart-7919")).
  - vm_compute. reflexivity.
  - reflexivity.
Defined.

(** ** Errors that nothing reads *)

Lemma after_app_skip (P : event → bool) t r :
  Forall (λ ev, P ev = false) t → after P (t ++ r) = after P r.
Proof.
  induction 1 as [|ev t Hev _ IH]; [done|]. cbn [app after]. by rewrite Hev.
Qed.

Lemma after_none (P : event → bool) t :
  Forall (λ ev, P ev = false) t → after P t = None.
Proof.
  intros Ht. rewrite <- (app_nil_r t). by rewrite after_app_skip.
Qed.

Lemma early_no_download t : early t → Forall (λ ev, is_download ev = false) t.
Proof.
  intros Ht. eapply Forall_impl; [exact Ht|]. intros ev Hev. by destruct ev.
Qed.

Lemma early_no_container_delete t :
  early t → Forall (λ ev, is_container_delete ev = false) t.
Proof.
  intros Ht. eapply Forall_impl; [exact Ht|]. intros ev Hev. by destruct ev.
Qed.

Lemma not_In_early t ev : early t → is_late ev = true → ¬ In ev t.
Proof.
  intros Ht Hev Hin. unfold early in Ht. rewrite Forall_forall in Ht.
  apply list_elem_of_In, Ht in Hin. congruence.
Qed.

(** [main] does not read the error of [Download]. *)
Lemma main_with_download_err fuel env e :
  main fuel (with_download_err e env) = main fuel env.
Proof. reflexivity. Qed.

(** [main] does not read the error of [Delete]. *)
Lemma main_with_delete_err fuel env e :
  main fuel (with_delete_err e env) = main fuel env.
Proof. reflexivity. Qed.

(** C9. In every run that reaches the download: the run is the same
    whatever error [Download] returned; a nil answer is dereferenced by
    [Body] and the run panics; otherwise the body is read next and the
    handler is given the error of that read, after which the run goes on
    to the cleanup or exits as the handler decides. *)
Theorem download_error_never_inspected
    (fuel : nat) (env : Env) (post : list event) :
  after is_download (trace (main fuel env)) = Some post →
  (∀ e, main fuel (with_download_err e env) = main fuel env)
  ∧ match download_response env with
    | None =>
        post = [FileClose "credentials.json"]
        ∧ result (main fuel env) = Panicked
    | Some r =>
        post = body_event env :: trace (handleErrors (read_error r))
                 ++ match result (handleErrors (read_error r)) with
                    | Returned _ => cleanup_events env ++ [FileClose "credentials.json"]
                    | _ => []
                    end
        ∧ result (main fuel env) = result (handleErrors (read_error r))
    end.
Proof.
  intros Hafter. split; [intros e; apply main_with_download_err|].
  destruct (main_run_shape fuel env)
    as [t o Hm Ht _ | t Ht Hr Hm | t r e Ht Hr Hh Hm | t r th Ht Hr Hh Hth Hm];
    rewrite Hm in Hafter |- *; cbn [trace result fst snd] in *.
  - rewrite after_none in Hafter by by apply early_no_download. done.
  - rewrite after_app_skip in Hafter by by apply early_no_download.
    rewrite Hr. cbn in Hafter. by injection Hafter as <-.
  - rewrite after_app_skip in Hafter by by apply early_no_download.
    rewrite Hr, Hh. cbn in Hafter. by injection Hafter as <-.
  - rewrite after_app_skip in Hafter by by apply early_no_download.
    rewrite Hr, Hh. cbn in Hafter. by injection Hafter as <-.
Qed.

Lemma download_error_never_inspected_witness :
  (∀ e, main 1 (with_download_err e env_ok) = main 1 env_ok)
  ∧ drop 15 (trace (main 1 env_ok)) =
      body_event env_ok :: trace (handleErrors (read_error (mkDownloadResponse 0 data [3; 0; 5])))
        ++ match result (handleErrors (read_error (mkDownloadResponse 0 data [3; 0; 5]))) with
           | Returned _ => cleanup_events env_ok ++ [FileClose "credentials.json"]
           | _ => []
           end
  ∧ result (main 1 env_ok) =
      result (handleErrors (read_error (mkDownloadResponse 0 data [3; 0; 5]))).
Proof.
  apply (download_error_never_inspected 1 env_ok (drop 15 (trace (main 1 env_ok)))).
  vm_compute. reflexivity.
Defined.

(** C7, as the code has it. In every run that sends the Delete request,
    [main] returns normally: after the request it closes the local file,
    removes it and runs the deferred close, and nothing is logged; the run
    is the same whatever error Delete returned. *)
Theorem delete_error_ignored (fuel : nat) (env : Env) (c : string) :
  In (NetDelete c) (trace (main fuel env)) →
  result (main fuel env) = Returned tt
  ∧ after is_container_delete (trace (main fuel env)) =
      Some [FileClose (fileName env); OsRemove (fileName env);
            FileClose "credentials.json"]
  ∧ ∀ e, main fuel (with_delete_err e env) = main fuel env.
Proof.
  intros Hin.
  cut (result (main fuel env) = Returned tt
       ∧ after is_container_delete (trace (main fuel env)) =
           Some [FileClose (fileName env); OsRemove (fileName env);
                 FileClose "credentials.json"]).
  { intros [? ?]. split; [done|]. split; [done|].
    intros e. apply main_with_delete_err. }
  destruct (main_run_shape fuel env)
    as [t o Hm Ht _ | t Ht Hr Hm | t r e Ht Hr Hh Hm | t r th Ht Hr Hh Hth Hm];
    rewrite Hm in Hin |- *; cbn [trace result fst snd] in *.
  - by apply not_In_early in Hin.
  - apply in_app_or in Hin as [Hin|Hin]; [by apply not_In_early in Hin|].
    cbn in Hin. by destruct Hin as [|[|]].
  - apply in_app_or in Hin as [Hin|Hin]; [by apply not_In_early in Hin|].
    cbn in Hin. by destruct Hin as [|[|[|]]].
  - split; [done|].
    rewrite after_app_skip by by apply early_no_container_delete.
    cbn [app after download_event body_event is_container_delete].
    by rewrite after_app_skip by by apply early_no_container_delete.
Qed.

Lemma delete_error_ignored_witness :
  result (main 1 env_delete_fails) = Returned tt
  ∧ after is_container_delete (trace (main 1 env_delete_fails)) =
      Some [FileClose (fileName env_delete_fails); OsRemove (fileName env_delete_fails);
            FileClose "credentials.json"]
  ∧ ∀ e, main 1 (with_delete_err e env_delete_fails) = main 1 env_delete_fails.
Proof.
  apply (delete_error_ignored 1 env_delete_fails "quickstart-7919").
  vm_compute. tauto.
Defined.

(** C7, as the specification words it, fails: here Delete answers with an
    error that the handler would treat as fatal, the request is sent, and
    the run still returns normally. *)
Lemma delete_error_fatal_counterexample :
  ¬ (∀ fuel env e c,
       delete_err env = Some e →
       result (handleErrors (Some e)) = Exited 1 →
       In (NetDelete c) (trace (main fuel env)) →
       result (main fuel env) = Exited 1).
Proof.
  intros Hclaim.
  specialize (Hclaim 1 env_delete_fails not_found "quickstart-7919").
  assert (Hres : result (main 1 env_delete_fails) = Returned tt) by reflexivity.
  rewrite Hres in Hclaim.
  discriminate Hclaim; [reflexivity | reflexivity | vm_compute; tauto].
Qed.

(** ** Blocks of a payload *)

Lemma ceil_div_zero B : 0 < B → ceil_div 0 B = 0.
Proof. intros HB. unfold ceil_div. apply Nat.div_small. lia. Qed.

Lemma ceil_div_pos n B : 0 < n → 0 < B → ceil_div n B = S ((n - 1) / B).
Proof.
  intros Hn HB. unfold ceil_div.
  replace (n + B - 1) with ((n - 1) + 1 * B) by lia.
  rewrite Nat.div_add by lia. lia.
Qed.

Lemma ceil_div_step n B : 0 < n → 0 < B → ceil_div n B = S (ceil_div (n - B) B).
Proof.
  intros Hn HB. rewrite ceil_div_pos by done. f_equal.
  destruct (decide (n ≤ B)) as [Hle|Hgt].
  - replace (n - B) with 0 by lia. rewrite ceil_div_zero by done.
    apply Nat.div_small. lia.
  - rewrite ceil_div_pos by lia.
    replace (n - 1) with ((n - B - 1) + 1 * B) by lia.
    rewrite Nat.div_add by lia. lia.
Qed.

(** The number of blocks is the least [k] with [S ≤ k * B]. *)
Lemma ceil_div_least n B : 0 < B →
  n ≤ ceil_div n B * B ∧ ∀ k, n ≤ k * B → ceil_div n B ≤ k.
Proof.
  intros HB. destruct (decide (n = 0)) as [->|Hn].
  { rewrite ceil_div_zero by done. split; lia. }
  rewrite ceil_div_pos by lia.
  pose proof (Nat.div_mod_eq (n - 1) B) as Hdm.
  pose proof (Nat.mod_upper_bound (n - 1) B ltac:(lia)) as Hmod.
  split; [nia|]. intros k Hk.
  destruct (decide (S ((n - 1) / B) ≤ k)); [done|]. nia.
Qed.

Section Blocks.
Variable B : nat.
Hypothesis B_pos : 0 < B.

Lemma split_blocks_fuel_concat fuel : ∀ l,
  length l ≤ fuel → concat (split_blocks_fuel fuel B l) = l.
Proof.
  induction fuel as [|fuel IH]; intros l Hlen.
  { destruct l; [done|cbn in Hlen; lia]. }
  destruct l as [|x l]; [done|]. cbn [split_blocks_fuel concat].
  rewrite IH; [apply take_drop|].
  rewrite length_drop. cbn [length] in *. lia.
Qed.

Lemma split_blocks_fuel_length fuel : ∀ l,
  length l ≤ fuel → length (split_blocks_fuel fuel B l) = ceil_div (length l) B.
Proof.
  induction fuel as [|fuel IH]; intros l Hlen.
  { destruct l; [by rewrite ceil_div_zero|cbn in Hlen; lia]. }
  destruct l as [|x l]; [by rewrite ceil_div_zero|].
  cbn [split_blocks_fuel length].
  rewrite IH by (rewrite length_drop; cbn [length] in *; lia).
  rewrite length_drop. rewrite (ceil_div_step (length (x :: l))); cbn [length]; lia.
Qed.

Lemma split_blocks_fuel_sizes fuel : ∀ l,
  Forall (λ b, 0 < length b ≤ B) (split_blocks_fuel fuel B l).
Proof.
  induction fuel as [|fuel IH]; intros l; [constructor|].
  destruct l as [|x l]; [constructor|]. cbn [split_blocks_fuel].
  constructor; [|apply IH].
  rewrite length_take. cbn [length]. lia.
Qed.

Lemma split_blocks_concat l : concat (split_blocks B l) = l.
Proof. by apply split_blocks_fuel_concat. Qed.

Lemma split_blocks_length l : length (split_blocks B l) = ceil_div (length l) B.
Proof. by apply split_blocks_fuel_length. Qed.

Lemma split_blocks_sizes l : Forall (λ b, 0 < length b ≤ B) (split_blocks B l).
Proof. apply split_blocks_fuel_sizes. Qed.
End Blocks.

(** ** The worker pool *)

Section Pool.
Variable width : nat.
Variable blocks : list (list byte).

Lemma pool_step_inv p a : pool_inv blocks p → pool_inv blocks (pool_step width p a).
Proof.
  unfold pool_inv. intros Hinv. destruct a as [|k|k]; cbn [pool_step].
  - destruct (pending p) as [|blk rest] eqn:Hpend; [by rewrite Hpend|].
    case_decide; cbn [pending inflight completed failed]; [|by rewrite Hpend].
    intros Hok. rewrite <- (Hinv Hok). cbn [app]. rewrite <- !app_assoc. cbn [app].
    rewrite !app_assoc. symmetry. apply Permutation_middle.
  - destruct (inflight p !! k) as [blk|] eqn:Hk; [|done].
    cbn [pending inflight completed failed]. intros Hok. rewrite <- (Hinv Hok).
    apply Permutation_app_head.
    rewrite (delete_Permutation _ _ _ Hk) at 2. cbn [app].
    rewrite app_assoc. rewrite <- Permutation_cons_append. done.
  - destruct (inflight p !! k) as [blk|] eqn:Hk; [|done].
    cbn [failed]. done.
Qed.

Lemma run_pool_inv sched : ∀ p, pool_inv blocks p → pool_inv blocks (run_pool width sched p).
Proof.
  unfold run_pool. induction sched as [|a sched IH]; intros p Hinv; [done|].
  cbn [foldl]. by apply IH, pool_step_inv.
Qed.

Lemma pool_step_width p a :
  length (inflight p) ≤ width → length (inflight (pool_step width p a)) ≤ width.
Proof.
  intros Hw. destruct a as [|k|k]; cbn [pool_step].
  - destruct (pending p) as [|blk rest]; [done|].
    case_decide; cbn [inflight]; [|done]. rewrite length_app. cbn. lia.
  - destruct (inflight p !! k) as [blk|] eqn:Hk; [|done].
    cbn [inflight]. rewrite length_delete by eauto. lia.
  - destruct (inflight p !! k) as [blk|] eqn:Hk; [|done].
    cbn [inflight]. rewrite length_delete by eauto. lia.
Qed.

Lemma run_pool_width sched : ∀ p,
  length (inflight p) ≤ width → length (inflight (run_pool width sched p)) ≤ width.
Proof.
  unfold run_pool. induction sched as [|a sched IH]; intros p Hw; [done|].
  cbn [foldl]. by apply IH, pool_step_width.
Qed.

Lemma pool_inv_init : pool_inv blocks (mkPool (indexed blocks) [] [] false).
Proof. unfold pool_inv. cbn. intros _. by rewrite app_nil_r. Qed.

Lemma finished_completed p :
  pool_inv blocks p → finished p = true → completed p ≡ₚ indexed blocks.
Proof.
  unfold pool_inv, finished. intros Hinv (Hp & Hi & Hok)%bool_decide_eq_true.
  specialize (Hinv Hok). by rewrite Hp, Hi in Hinv.
Qed.
End Pool.

(** ** The service *)

Lemma indexed_ids blocks : (indexed blocks).*1 = seq 0 (length blocks).
Proof.
  unfold indexed. apply list_eq. intros i.
  rewrite list_lookup_fmap, list_lookup_imap.
  destruct (blocks !! i) as [b|] eqn:Hb; cbn.
  - symmetry. apply lookup_seq. split; [done|]. by eapply lookup_lt_Some.
  - symmetry. apply lookup_ge_None. rewrite length_seq.
    by apply lookup_ge_None in Hb.
Qed.

Lemma elem_of_indexed blocks i d : (i, d) ∈ indexed blocks ↔ blocks !! i = Some d.
Proof.
  unfold indexed. rewrite list_elem_of_lookup. split.
  - intros [j Hj]. rewrite list_lookup_imap in Hj.
    destruct (blocks !! j) eqn:Hb; cbn in Hj; by simplify_eq.
  - intros Hb. exists i. by rewrite list_lookup_imap, Hb.
Qed.

Lemma stage_all_lookup_notin l : ∀ m i, i ∉ l.*1 → stage_all l m !! i = m !! i.
Proof.
  unfold stage_all. induction l as [|[j d] l IH]; intros m i Hi; [done|].
  cbn [foldl]. rewrite fmap_cons, not_elem_of_cons in Hi. destruct Hi as [Hij Hi].
  rewrite IH by done. cbn. by rewrite lookup_insert_ne.
Qed.

Lemma stage_all_lookup l : ∀ m i d,
  NoDup l.*1 → (i, d) ∈ l → stage_all l m !! i = Some d.
Proof.
  induction l as [|[j d'] l IH]; intros m i d Hnd Hin; [by apply elem_of_nil in Hin|].
  rewrite fmap_cons in Hnd. apply NoDup_cons in Hnd as [Hj Hnd].
  apply elem_of_cons in Hin as [[= -> ->]|Hin].
  - change (stage_all ((j, d') :: l) m) with (stage_all l (<[j := d']> m)).
    rewrite stage_all_lookup_notin by done. by rewrite lookup_insert_eq.
  - by apply (IH (<[j := d']> m)).
Qed.

Lemma blob_at_insert s name b : blob_at (<[name := b]> s) name = b.
Proof. unfold blob_at. by rewrite lookup_insert_eq. Qed.

Lemma visible_blob_at s name b :
  s !! name = Some b → visible s name = committed b.
Proof. unfold visible. by intros ->. Qed.

Lemma serve_all_app name r1 r2 s :
  serve_all name (r1 ++ r2) s =
  match serve_all name r1 s with
  | (s', None) => serve_all name r2 s'
  | other => other
  end.
Proof.
  revert s. induction r1 as [|r r1 IH]; intros s; [done|].
  cbn [app serve_all]. destruct (serve_at name r s) as [s' [e|]]; [done|apply IH].
Qed.

(** Puts of blocks never fail; they stage the blocks and leave the visible
    content alone. *)
Lemma serve_all_put_blocks name l : ∀ s,
  ∃ s', serve_all name (put_block <$> l) s = (s', None)
        ∧ staged (blob_at s' name) = stage_all l (staged (blob_at s name))
        ∧ committed (blob_at s' name) = committed (blob_at s name).
Proof.
  induction l as [|[i d] l IH]; intros s; [by exists s|].
  cbn [fmap list_fmap serve_all]. unfold serve_at at 1. cbn [put_block serve fst snd].
  fold (blob_at s name).
  destruct (IH (<[name := mkBlob (<[i:=d]> (staged (blob_at s name)))
                                 (committed (blob_at s name))]> s))
    as (s' & Hs' & Hst & Hco).
  exists s'. rewrite blob_at_insert in Hst, Hco. cbn in Hst, Hco. done.
Qed.

Lemma commit_in_order blocks (m : gmap nat (list byte)) :
  (∀ i d, blocks !! i = Some d → m !! i = Some d) →
  mapM (λ i, m !! i) (seq 0 (length blocks)) = Some blocks.
Proof.
  intros Hm. apply mapM_Some, Forall2_same_length_lookup. split.
  { by rewrite length_seq. }
  intros i j d [-> _]%lookup_seq Hd. by apply Hm.
Qed.

(** Whatever the order in which the blocks were put, the commit of the ids
    in byte order makes the payload the visible content. *)
Lemma serve_all_commit name blocks done_ s :
  done_ ≡ₚ indexed blocks →
  ∃ s', serve_all name ((put_block <$> done_) ++ [PutBlockList (seq 0 (length blocks))]) s
          = (s', None)
        ∧ visible s' name = Some (concat blocks).
Proof.
  intros Hperm. rewrite serve_all_app.
  destruct (serve_all_put_blocks name done_ s) as (s1 & -> & Hst & _).
  cbn [serve_all]. unfold serve_at. cbn [serve]. fold (blob_at s1 name).
  rewrite Hst, (commit_in_order blocks).
  - eexists. split; [done|]. unfold visible. by rewrite lookup_insert_eq.
  - intros i d Hd. apply stage_all_lookup.
    + rewrite Hperm, indexed_ids. apply NoDup_seq.
    + rewrite Hperm. by apply elem_of_indexed.
Qed.

(** ** The upload workflow *)

Lemma run_pool_sequential width : 0 < width → ∀ l done_,
  run_pool width (sequential_schedule (length l)) (mkPool l [] done_ false)
  = mkPool [] [] (done_ ++ l) false.
Proof.
  intros Hw. unfold run_pool, sequential_schedule.
  induction l as [|blk l IH]; intros done_; [by rewrite app_nil_r|].
  cbn [length replicate mjoin list_join app foldl pool_step pending inflight completed failed].
  rewrite decide_True by (cbn; lia).
  cbn [pool_step pending inflight completed failed app lookup list_lookup delete list_delete].
  fold (mjoin (replicate (length l) [Dispatch; Complete 0])).
  rewrite IH. by rewrite <- app_assoc.
Qed.

(** With a worker to run on, the upload of every payload can succeed. *)
Lemma upload_requests_sequential threshold payload o :
  0 < pool_width o →
  ∃ reqs, upload_requests threshold payload o
            (sequential_schedule (length (blocks_of o payload))) = (reqs, None).
Proof.
  intros Hw. unfold upload_requests. case_decide; [by eexists|].
  rewrite <- (length_imap (λ i b, (i, b))). fold (indexed (blocks_of o payload)).
  rewrite run_pool_sequential by done. cbn. by eexists.
Qed.

(** When the upload reports no error, the payload is what a reader sees. *)
Lemma upload_commits threshold s name payload o sched s' :
  (0 < BlockSize o)%Z →
  UploadFileToBlockBlob threshold s name payload o sched = (s', None) →
  visible s' name = Some payload.
Proof.
  intros HB. unfold UploadFileToBlockBlob, upload_requests.
  case_decide as Hsmall.
  - cbn. unfold serve_at. cbn. intros [= <-].
    unfold visible. by rewrite lookup_insert_eq.
  - set (blocks := blocks_of o payload).
    set (p := run_pool _ _ _).
    destruct (finished p) eqn:Hfin.
    + pose proof (finished_completed blocks p
                    (run_pool_inv _ _ _ _ (pool_inv_init blocks)) Hfin) as Hperm.
      destruct (serve_all_commit name blocks (completed p) s Hperm) as (s1 & -> & Hvis).
      intros [= <-]. rewrite Hvis. f_equal. apply split_blocks_concat. lia.
    + destruct (serve_all name _ s) as [s1 [e|]]; intros [=].
Qed.

(** What the pool does with its width *)

Lemma run_pool_app width s1 s2 p :
  run_pool width (s1 ++ s2) p = run_pool width s2 (run_pool width s1 p).
Proof. apply foldl_app. Qed.

(** Dispatching fills the pool up to its width and no further. *)
Lemma run_pool_dispatch width k : ∀ p,
  length (inflight p) ≤ width →
  length (inflight (run_pool width (replicate k Dispatch) p))
  = length (inflight p)
    + k `min` ((width - length (inflight p)) `min` length (pending p)).
Proof.
  unfold run_pool. induction k as [|k IH]; intros p Hw; [cbn; lia|].
  cbn [replicate foldl pool_step].
  destruct (pending p) as [|blk rest] eqn:Hpend.
  { rewrite IH, Hpend by done. cbn [length]. lia. }
  case_decide as Hfree.
  - rewrite IH by (cbn [inflight]; rewrite length_app; cbn; lia).
    cbn [inflight pending]. rewrite length_app. cbn [length]. lia.
  - rewrite IH, Hpend by done. cbn [length]. lia.
Qed.

(** The uploads in flight can all finish. *)
Lemma run_pool_drain width infl : ∀ pend done_ f,
  run_pool width (replicate (length infl) (Complete 0)) (mkPool pend infl done_ f)
  = mkPool pend [] (done_ ++ infl) f.
Proof.
  unfold run_pool. induction infl as [|blk infl IH]; intros pend done_ f.
  { by rewrite app_nil_r. }
  cbn [length replicate foldl pool_step inflight lookup list_lookup
       pending completed failed delete list_delete].
  rewrite IH. by rewrite <- app_assoc.
Qed.

(** Whatever happened so far, short of a failed block, the upload can be
    brought to its end. *)
Lemma run_pool_can_finish width p :
  0 < width → failed p = false →
  finished (run_pool width
              (replicate (length (inflight p)) (Complete 0)
                 ++ sequential_schedule (length (pending p))) p) = true.
Proof.
  intros Hw Hok. destruct p as [pend infl done_ f]. cbn in Hok. subst f.
  cbn [inflight pending]. rewrite run_pool_app, run_pool_drain.
  by rewrite run_pool_sequential.
Qed.

(** C3. For a payload and the options of an upload with a positive block
    size: up to the threshold the upload is the single put of the payload.
    Above it the payload is cut into ceil(S/B) blocks of at most B bytes
    that follow each other in byte order.  The pool has the width of the
    parallelism: it never has more blocks in flight, and dispatching fills
    it with that many blocks, as far as there are blocks.  An upload that
    reports no error consists of the puts of all blocks, in whatever order
    they finished, and then one commit of the block ids in byte order, after
    which the service shows the payload; an upload that reports an error
    reports UploadFailed and has put blocks only.  With a worker to run on,
    the blocks are uploaded and committed: one after the other they give
    the puts in byte order and the commit, and every schedule in which no
    block failed can be continued to an upload without error. *)
Theorem chunked_upload_plan
    (threshold : Z) (payload : list byte) (o : UploadToBlockBlobOptions)
    (sched : list action) :
  (0 < BlockSize o)%Z →
  if decide (Z.of_nat (length payload) ≤ threshold)%Z
  then upload_requests threshold payload o sched = ([PutBlob payload], None)
  else
    length (blocks_of o payload) = ceil_div (length payload) (Z.to_nat (BlockSize o))
    ∧ Forall (λ b, 0 < length b ≤ Z.to_nat (BlockSize o)) (blocks_of o payload)
    ∧ concat (blocks_of o payload) = payload
    ∧ (∀ k, length (inflight (run_pool (pool_width o) (take k sched)
                                (mkPool (indexed (blocks_of o payload)) [] [] false)))
            ≤ Z.to_nat (Parallelism o))
    ∧ (∀ k, length (inflight (run_pool (pool_width o) (replicate k Dispatch)
                                (mkPool (indexed (blocks_of o payload)) [] [] false)))
            = k `min` (Z.to_nat (Parallelism o) `min` length (blocks_of o payload)))
    ∧ match upload_requests threshold payload o sched with
      | (reqs, None) =>
          ∃ done_,
            reqs = (put_block <$> done_)
                     ++ [PutBlockList (seq 0 (length (blocks_of o payload)))]
            ∧ done_ ≡ₚ indexed (blocks_of o payload)
            ∧ ∀ s name, ∃ s', serve_all name reqs s = (s', None)
                              ∧ visible s' name = Some payload
      | (reqs, Some e) => e = UploadFailed ∧ Forall (λ r, is_put_block r = true) reqs
      end
    ∧ ((0 < Parallelism o)%Z →
       upload_requests threshold payload o
         (sequential_schedule (length (blocks_of o payload)))
       = ((put_block <$> indexed (blocks_of o payload))
            ++ [PutBlockList (seq 0 (length (blocks_of o payload)))], None)
       ∧ (failed (run_pool (pool_width o) sched
                    (mkPool (indexed (blocks_of o payload)) [] [] false)) = false →
          ∃ rest, (upload_requests threshold payload o (sched ++ rest)).2 = None)).
Proof.
  intros HB. unfold upload_requests. case_decide as Hsmall; [done|].
  assert (HBn : 0 < Z.to_nat (BlockSize o)) by lia.
  split; [by apply split_blocks_length|].
  split; [by apply split_blocks_sizes|].
  split; [by apply split_blocks_concat|].
  split; [intros k; apply run_pool_width; cbn; lia|].
  split.
  { intros k. rewrite run_pool_dispatch by (cbn; lia).
    cbn [inflight pending length]. unfold indexed. rewrite length_imap.
    unfold pool_width. lia. }
  set (blocks := blocks_of o payload).
  split.
  - set (p := run_pool _ _ _).
    destruct (finished p) eqn:Hfin.
    + pose proof (finished_completed blocks p
                    (run_pool_inv _ _ _ _ (pool_inv_init blocks)) Hfin) as Hperm.
      exists (completed p). split; [done|]. split; [done|].
      intros s name.
      destruct (serve_all_commit name blocks (completed p) s Hperm) as (s1 & -> & Hvis).
      exists s1. split; [done|]. rewrite Hvis. f_equal. by apply split_blocks_concat.
    + split; [done|]. apply Forall_fmap, Forall_forall. by intros [i d] _.
  - intros Hpar. assert (Hw : 0 < pool_width o) by (unfold pool_width; lia).
    split.
    + rewrite <- (length_imap (λ i b, (i, b)) blocks). fold (indexed blocks).
      rewrite run_pool_sequential by done. cbn [app]. reflexivity.
    + intros Hok.
      set (p := run_pool (pool_width o) sched (mkPool (indexed blocks) [] [] false)) in *.
      exists (replicate (length (inflight p)) (Complete 0)
                ++ sequential_schedule (length (pending p))).
      rewrite run_pool_app. fold p.
      by rewrite (run_pool_can_finish (pool_width o) p Hw Hok).
Qed.

(** When the upload of a block fails, blocks are staged but nothing is
    committed: readers see what they saw before. *)
Example failed_block_leaves_blob_absent :
  UploadFileToBlockBlob 4 ∅ "b" payload10 options_3_2 block_fails
    = ((UploadFileToBlockBlob 4 ∅ "b" payload10 options_3_2 block_fails).1,
       Some UploadFailed)
  ∧ visible (UploadFileToBlockBlob 4 ∅ "b" payload10 options_3_2 block_fails).1 "b"
    = None.
Proof. split; vm_compute; reflexivity. Qed.

Lemma chunked_upload_plan_witness :
  upload_requests BlockBlobMaxUploadBlobBytes data upload_options interleaved
    = ([PutBlob data], None)
  ∧ upload_requests 4 payload10 options_3_2 interleaved
    = ([PutBlock 1 (bytes_of "345"); PutBlock 0 (bytes_of "012");
        PutBlock 3 (bytes_of "9"); PutBlock 2 (bytes_of "678");
        PutBlockList [0; 1; 2; 3]], None)
  ∧ (length (blocks_of options_3_2 payload10) = ceil_div (length payload10) 3
     ∧ Forall (λ b, 0 < length b ≤ 3) (blocks_of options_3_2 payload10)
     ∧ concat (blocks_of options_3_2 payload10) = payload10
     ∧ (∀ k, length (inflight (run_pool (pool_width options_3_2) (take k interleaved)
                                 (mkPool (indexed (blocks_of options_3_2 payload10)) [] [] false)))
             ≤ 2)
     ∧ (∀ k, length (inflight (run_pool (pool_width options_3_2) (replicate k Dispatch)
                                 (mkPool (indexed (blocks_of options_3_2 payload10)) [] [] false)))
             = k `min` (2 `min` 4))
     ∧ (∃ done_,
         ([PutBlock 1 (bytes_of "345"); PutBlock 0 (bytes_of "012");
           PutBlock 3 (bytes_of "9"); PutBlock 2 (bytes_of "678");
           PutBlockList [0; 1; 2; 3]] : list request)
         = (put_block <$> done_) ++ [PutBlockList (seq 0 (length (blocks_of options_3_2 payload10)))]
         ∧ done_ ≡ₚ indexed (blocks_of options_3_2 payload10)
         ∧ ∀ s name, ∃ s',
             serve_all name
               [PutBlock 1 (bytes_of "345"); PutBlock 0 (bytes_of "012");
                PutBlock 3 (bytes_of "9"); PutBlock 2 (bytes_of "678");
                PutBlockList [0; 1; 2; 3]] s = (s', None)
             ∧ visible s' name = Some payload10)
     ∧ ((0 < 2)%Z →
        upload_requests 4 payload10 options_3_2 (sequential_schedule 4)
        = ([PutBlock 0 (bytes_of "012"); PutBlock 1 (bytes_of "345");
            PutBlock 2 (bytes_of "678"); PutBlock 3 (bytes_of "9");
            PutBlockList [0; 1; 2; 3]], None)
        ∧ (failed (run_pool (pool_width options_3_2) interleaved
                     (mkPool (indexed (blocks_of options_3_2 payload10)) [] [] false))
             = false →
           ∃ rest, (upload_requests 4 payload10 options_3_2 (interleaved ++ rest)).2
                   = None))).
Proof.
  split; [|split].
  - exact (chunked_upload_plan BlockBlobMaxUploadBlobBytes data upload_options
             interleaved eq_refl).
  - reflexivity.
  - exact (chunked_upload_plan 4 payload10 options_3_2 interleaved eq_refl).
Defined.

(** ** The retrying reader *)

Lemma read_stream_complete drops : ∀ retries off range pos reqs got,
  read_stream retries drops off range pos = (reqs, got, None) →
  got = drop pos range.
Proof.
  induction drops as [|d later IH]; intros retries off range pos reqs got;
    cbn [read_stream].
  { by intros [= _ <-]. }
  case_decide; [by intros [= _ <-]|].
  destruct retries as [|r]; [done|].
  destruct (read_stream r later off range (pos + d)) as [[reqs' got'] e'] eqn:Hrec.
  intros [= _ <- ->]. rewrite (IH _ _ _ _ _ _ Hrec).
  rewrite <- drop_drop. apply take_drop.
Qed.

Lemma read_stream_within_budget drops : ∀ retries off range pos,
  length drops ≤ retries →
  ∃ reqs, read_stream retries drops off range pos = (reqs, drop pos range, None).
Proof.
  induction drops as [|d later IH]; intros retries off range pos Hlen;
    cbn [read_stream]; [by eexists|].
  case_decide; [by eexists|].
  destruct retries as [|r]; [cbn in Hlen; lia|].
  destruct (IH r off range (pos + d)) as [reqs ->]; [cbn in Hlen; lia|].
  eexists. f_equal. f_equal. rewrite <- drop_drop. apply take_drop.
Qed.

Lemma read_stream_resumes drops : ∀ retries off range pos reqs got e,
  read_stream retries drops off range pos = (reqs, got, e) →
  reqs = take (length reqs) (resume_offsets (off + pos) drops)
  ∧ length reqs ≤ retries.
Proof.
  induction drops as [|d later IH]; intros retries off range pos reqs got e;
    cbn [read_stream].
  { intros [= <- _ _]. split; [done|cbn; lia]. }
  case_decide; [intros [= <- _ _]; split; [done|cbn; lia]|].
  destruct retries as [|r]; [intros [= <- _ _]; split; [done|cbn; lia]|].
  destruct (read_stream r later off range (pos + d)) as [[reqs' got'] e'] eqn:Hrec.
  intros [= <- _ _]. destruct (IH _ _ _ _ _ _ _ Hrec) as [Hreqs Hlen].
  cbn [length resume_offsets take]. rewrite Nat.add_assoc in Hreqs |- *.
  split; [by rewrite <- Hreqs|lia].
Qed.

Lemma read_stream_failed drops : ∀ retries off range pos reqs got e,
  read_stream retries drops off range pos = (reqs, got, Some e) →
  e = DownloadFailed ∧ length reqs = retries ∧ retries < length drops
  ∧ length got < length (drop pos range).
Proof.
  induction drops as [|d later IH]; intros retries off range pos reqs got e;
    cbn [read_stream]; [done|].
  case_decide as Hshort; [done|].
  destruct retries as [|r].
  { intros [= <- <- <-]. rewrite length_take. cbn. repeat split; lia. }
  destruct (read_stream r later off range (pos + d)) as [[reqs' got'] e'] eqn:Hrec.
  intros [= <- <- ->]. destruct (IH _ _ _ _ _ _ _ Hrec) as (-> & Hreqs & Hlen & Hgot).
  rewrite <- drop_drop, length_drop in Hgot.
  rewrite length_app, length_take. cbn [length]. repeat split; lia.
Qed.

Lemma read_stream_exhausted drops : ∀ retries off range pos,
  retries < length drops →
  sum_list (take (S retries) drops) < length (drop pos range) →
  ∃ reqs got, read_stream retries drops off range pos = (reqs, got, Some DownloadFailed).
Proof.
  induction drops as [|d later IH]; intros retries off range pos Hlen Hsum;
    cbn [read_stream]; [cbn in Hlen; lia|].
  cbn [take sum_list_with] in Hsum. unfold id in Hsum at 1.
  rewrite decide_False by lia.
  destruct retries as [|r]; [by eexists _, _|].
  destruct (IH r off range (pos + d)) as (reqs & got & ->).
  - cbn in Hlen. lia.
  - rewrite <- drop_drop, length_drop. lia.
  - by eexists _, _.
Qed.

Lemma download_visible s name content drops :
  visible s name = Some content →
  Download s name 0 CountToEnd drops = (Some (mkDownloadResponse 0 content drops), None).
Proof. unfold Download, visible. intros ->. reflexivity. Qed.

(** C1. For every payload: when the upload workflow stored it under a name
    without error, be it by the single put or by blocks, the download of
    that name from offset 0 to the end answers with a stream; every read of
    that stream to its end yields the payload, byte for byte, and the read
    comes to the end whenever the connection fails no more often than the
    retries allow. *)
Theorem upload_download_roundtrip
    (threshold : Z) (s s' : gmap string blob_state) (name : string)
    (payload : list byte) (o : UploadToBlockBlobOptions)
    (sched : list action) (drops : list nat) :
  (0 < BlockSize o)%Z →
  UploadFileToBlockBlob threshold s name payload o sched = (s', None) →
  ∃ r, Download s' name 0 CountToEnd drops = (Some r, None)
       ∧ (∀ ropts reqs got,
            Body_ReadFrom r ropts = (reqs, got, None) → got = payload)
       ∧ (∀ ropts, length drops ≤ Z.to_nat (MaxRetryRequests ropts) →
            ∃ reqs, Body_ReadFrom r ropts = (reqs, payload, None)).
Proof.
  intros HB Hup.
  pose proof (upload_commits _ _ _ _ _ _ _ HB Hup) as Hvis.
  eexists. split; [by apply download_visible|]. split.
  - intros ropts reqs got Hread. unfold Body_ReadFrom in Hread. cbn in Hread.
    by apply read_stream_complete in Hread.
  - intros ropts Hlen. unfold Body_ReadFrom. cbn [dr_drops dr_offset dr_range].
    by apply (read_stream_within_budget drops _ 0 payload 0).
Qed.

Lemma upload_download_roundtrip_witness :
  (∃ r, Download (UploadFileToBlockBlob BlockBlobMaxUploadBlobBytes ∅ "15838" data
                    upload_options interleaved).1 "15838" 0 CountToEnd [3; 0; 5]
          = (Some r, None)
        ∧ (∀ ropts reqs got, Body_ReadFrom r ropts = (reqs, got, None) → got = data)
        ∧ (∀ ropts, length [3; 0; 5] ≤ Z.to_nat (MaxRetryRequests ropts) →
             ∃ reqs, Body_ReadFrom r ropts = (reqs, data, None)))
  ∧ (∃ r, Download (UploadFileToBlockBlob 4 ∅ "b" payload10 options_3_2 interleaved).1
                   "b" 0 CountToEnd [3; 0; 5]
          = (Some r, None)
        ∧ (∀ ropts reqs got, Body_ReadFrom r ropts = (reqs, got, None) → got = payload10)
        ∧ (∀ ropts, length [3; 0; 5] ≤ Z.to_nat (MaxRetryRequests ropts) →
             ∃ reqs, Body_ReadFrom r ropts = (reqs, payload10, None))).
Proof.
  split.
  - apply (upload_download_roundtrip BlockBlobMaxUploadBlobBytes ∅ _ "15838" data
             upload_options interleaved [3; 0; 5]).
    + reflexivity.
    + vm_compute. reflexivity.
  - apply (upload_download_roundtrip 4 ∅ _ "b" payload10 options_3_2 interleaved [3; 0; 5]).
    + reflexivity.
    + vm_compute. reflexivity.
Defined.

(** ** The download of main *)

Lemma main_download_events fuel env :
  Forall (λ ev, (is_download ev = false ∨ ev = download_event env)
                ∧ (is_body_read ev = false ∨ ev = body_event env))
         (trace (main fuel env)).
Proof.
  assert (Hearly : ∀ t, early t →
            Forall (λ ev, (is_download ev = false ∨ ev = download_event env)
                          ∧ (is_body_read ev = false ∨ ev = body_event env)) t).
  { intros t Ht. eapply Forall_impl; [exact Ht|]. intros ev Hev.
    by destruct ev; (split; [left|left]). }
  destruct (main_run_shape fuel env)
    as [t o -> Ht _ | t Ht _ -> | t r e Ht _ _ -> | t r th Ht _ _ Hth ->];
    cbn [trace fst].
  - by apply Hearly.
  - apply Forall_app. split; [by apply Hearly|].
    repeat constructor; by (left + right).
  - apply Forall_app. split; [by apply Hearly|].
    repeat constructor; by (left + right).
  - apply Forall_app. split; [by apply Hearly|].
    constructor; [split; by (left + right)|].
    constructor; [split; by (left + right)|].
    apply Forall_app. split; [by apply Hearly|].
    repeat constructor; by (left + right).
Qed.

Lemma read_error_cases r :
  read_error r = None ∨ read_error r = Some DownloadFailed.
Proof.
  unfold read_error, Body_ReadFrom.
  destruct (read_stream _ _ _ _ 0) as [[reqs got] [e|]] eqn:Hread; [|by left].
  right. by destruct (read_stream_failed _ _ _ _ _ _ _ _ Hread) as (-> & _).
Qed.

(** C5. A run of [main] that comes past the listing sends the download of
    its blob from offset 0 to the end and then reads the body with 20
    retries; when that read ends without error the run goes on to the
    cleanup and returns, and when it ends with an error the run logs it
    and exits.  These are the only download and body read of the run.  A
    read that ends without error delivered the whole range, whatever
    failures the connection had; the requests it issued again start where
    the bytes delivered so far end, and there are at most 20 of them.  A
    read that ends with an error ends with DownloadFailed, after 20
    requests were issued again and the connection failed once more.  The
    read ends without error when the connection fails at most 20 times,
    and with the error when it fails 21 times before the end of the
    range. *)
Theorem download_retries_up_to_20 (fuel : nat) (env : Env) (r : DownloadResponse) :
  AzureStorageAccountName (load_credentials env) ≠ "" →
  AzureStorageAccountKey (load_credentials env) ≠ "" →
  result (setup_and_list fuel env (load_credentials env)) = Returned tt →
  download_response env = Some r →
  trace (main fuel env)
  = preamble env
      ++ trace (setup_and_list fuel env (load_credentials env))
      ++ [NetDownload (containerName env) (fileName env) 0 CountToEnd;
          NetBodyRead (containerName env) (fileName env) 20]
      ++ match read_error r with
         | None => cleanup_events env ++ [FileClose "credentials.json"]
         | Some e => [LogFatal (Error e)]
         end
  ∧ result (main fuel env)
    = match read_error r with
      | None => Returned tt
      | Some _ => Exited 1
      end
  ∧ Forall (λ ev, (is_download ev = false
                   ∨ ev = NetDownload (containerName env) (fileName env) 0 CountToEnd)
                  ∧ (is_body_read ev = false
                     ∨ ev = NetBodyRead (containerName env) (fileName env) 20))
           (trace (main fuel env))
  ∧ match Body_ReadFrom r retry_options with
    | (reqs, got, None) =>
        got = dr_range r
        ∧ reqs = take (length reqs) (resume_offsets (dr_offset r) (dr_drops r))
        ∧ length reqs ≤ 20
    | (reqs, got, Some e) =>
        e = DownloadFailed
        ∧ reqs = take 20 (resume_offsets (dr_offset r) (dr_drops r))
        ∧ length reqs = 20
        ∧ 20 < length (dr_drops r)
        ∧ length got < length (dr_range r)
    end
  ∧ (length (dr_drops r) ≤ 20 → read_error r = None)
  ∧ (20 < length (dr_drops r) →
     sum_list (take 21 (dr_drops r)) < length (dr_range r) →
     read_error r = Some DownloadFailed).
Proof.
  intros Hname Hkey Hsetup Hresp.
  assert (Hmain : main fuel env =
    (preamble env
       ++ trace (setup_and_list fuel env (load_credentials env))
       ++ [NetDownload (containerName env) (fileName env) 0 CountToEnd;
           NetBodyRead (containerName env) (fileName env) 20]
       ++ match read_error r with
          | None => cleanup_events env ++ [FileClose "credentials.json"]
          | Some e => [LogFatal (Error e)]
          end,
     match read_error r with
     | None => Returned tt
     | Some _ => Exited 1
     end)).
  { rewrite main_nonempty_credentials by by apply credentials_full_spec.
    unfold main_with.
    rewrite (prog_eta (setup_and_list fuel env (load_credentials env))), Hsetup.
    rewrite bind_returned, (download_and_cleanup_some env r Hresp).
    cbn [trace result fst snd].
    destruct (read_error_cases r) as [-> | ->]; cbn [handleErrors ServiceCode
      DownloadFailed Error log_Fatal ret trace result fst snd deferred app].
    - by rewrite <- !app_assoc.
    - by rewrite <- !app_assoc. }
  split; [by rewrite Hmain|]. split; [by rewrite Hmain|].
  split; [apply main_download_events|].
  unfold read_error, Body_ReadFrom. change (Z.to_nat (MaxRetryRequests retry_options)) with 20.
  split; [|split].
  - destruct (read_stream 20 _ _ _ 0) as [[reqs got] [e|]] eqn:Hread.
    + destruct (read_stream_failed _ _ _ _ _ _ _ _ Hread) as (-> & Hreqs & Hlen & Hgot).
      destruct (read_stream_resumes _ _ _ _ _ _ _ _ Hread) as [Hres _].
      rewrite Nat.add_0_r, Hreqs in Hres. by rewrite drop_0 in Hgot.
    + destruct (read_stream_resumes _ _ _ _ _ _ _ _ Hread) as [Hres Hle].
      rewrite Nat.add_0_r in Hres.
      apply read_stream_complete in Hread. by rewrite drop_0 in Hread.
  - intros Hlen.
    by destruct (read_stream_within_budget (dr_drops r) 20 (dr_offset r) (dr_range r) 0 Hlen)
      as [reqs ->].
  - intros Hlen Hsum.
    destruct (read_stream_exhausted (dr_drops r) 20 (dr_offset r) (dr_range r) 0)
      as (reqs & got & ->); [done|by rewrite drop_0|done].
Qed.

Lemma download_retries_witness :
  trace (main 1 env_ok)
  = preamble env_ok
      ++ trace (setup_and_list 1 env_ok (load_credentials env_ok))
      ++ [NetDownload "quickstart-7919" "15838" 0 CountToEnd;
          NetBodyRead "quickstart-7919" "15838" 20]
      ++ cleanup_events env_ok ++ [FileClose "credentials.json"]
  ∧ result (main 1 env_ok) = Returned tt
  ∧ Forall (λ ev, (is_download ev = false
                   ∨ ev = NetDownload (containerName env_ok) (fileName env_ok) 0 CountToEnd)
                  ∧ (is_body_read ev = false
                     ∨ ev = NetBodyRead (containerName env_ok) (fileName env_ok) 20))
           (trace (main 1 env_ok))
  ∧ (data = data
     ∧ [3; 3; 8] = take 3 (resume_offsets 0 [3; 0; 5])
     ∧ 3 ≤ 20)
  ∧ (length [3; 0; 5] ≤ 20 → read_error (mkDownloadResponse 0 data [3; 0; 5]) = None)
  ∧ (20 < length [3; 0; 5] →
     sum_list (take 21 [3; 0; 5]) < length data →
     read_error (mkDownloadResponse 0 data [3; 0; 5]) = Some DownloadFailed).
Proof.
  apply (download_retries_up_to_20 1 env_ok (mkDownloadResponse 0 data [3; 0; 5])).
  - vm_compute. discriminate.
  - vm_compute. discriminate.
  - reflexivity.
  - reflexivity.
Defined.

(** A connection that fails 21 times without delivering a byte uses up
    the 20 retries. *)
Example retries_used_up :
  Body_ReadFrom (mkDownloadResponse 0 data (replicate 21 0)) retry_options
  = (replicate 20 0, [], Some DownloadFailed).
Proof. reflexivity. Qed.

(** ** The listing loop *)

Lemma for_range_printf {X} (f : X → string) (xs : list X) :
  for_range xs (λ x, Printf (f x)) = (Stdout ∘ f <$> xs, Returned tt).
Proof.
  induction xs as [|x xs IH]; [done|]. cbn [for_range]. rewrite IH. reflexivity.
Qed.

Lemma stdout_lines_app t1 t2 :
  stdout_lines (t1 ++ t2) = stdout_lines t1 ++ stdout_lines t2.
Proof. apply omap_app. Qed.

Lemma list_calls_app t1 t2 : list_calls (t1 ++ t2) = list_calls t1 ++ list_calls t2.
Proof. apply omap_app. Qed.

Lemma stdout_lines_printed {X} (f : X → string) (xs : list X) :
  stdout_lines (Stdout ∘ f <$> xs) = f <$> xs.
Proof. induction xs as [|x xs IH]; [done|]. cbn. by f_equal. Qed.

Lemma list_calls_printed {X} (f : X → string) (xs : list X) :
  list_calls (Stdout ∘ f <$> xs) = [].
Proof. by induction xs. Qed.

Lemma list_calls_handleErrors e : list_calls (trace (handleErrors e)) = [].
Proof. by destruct (handleErrors_cases e) as [-> | [-> | (e' & _ & ->)]]. Qed.

Section Loop.
Variable c : string.
Variable svc : Marker → option ListBlobsFlatSegmentResponse * err.
Variable nd : Marker → bool.

Lemma listing_loop_done fuel m :
  nd m = false → listing_loop c svc nd fuel m = ([], Returned tt).
Proof. intros Hm. destruct fuel; cbn [listing_loop]; by rewrite Hm. Qed.

(** One round of the loop. *)
Lemma listing_loop_round fuel m :
  nd m = true →
  listing_loop c svc nd (S fuel) m =
    let '(listBlob, e) := svc m in
    let h := handleErrors e in
    match result h, listBlob with
    | Returned _, Some lb =>
        let rest := listing_loop c svc nd fuel (NextMarker lb) in
        (NetList c (Val m) :: trace h
           ++ (Stdout ∘ (λ b, " Blob name: " +:+ Name b +:+ nl) <$> BlobItems lb)
           ++ trace rest,
         result rest)
    | Returned _, None => (NetList c (Val m) :: trace h, Panicked)
    | Exited code, _ => (NetList c (Val m) :: trace h, Exited code)
    | Panicked, _ => (NetList c (Val m) :: trace h, Panicked)
    | OutOfFuel, _ => (NetList c (Val m) :: trace h, OutOfFuel)
    end.
Proof.
  intros Hm. cbn [listing_loop]. rewrite Hm.
  destruct (svc m) as [listBlob e]. cbn zeta.
  destruct (handleErrors_cases e) as [-> | [-> | (e' & _ & ->)]];
    cbn [bind emit trace result fst snd app]; try done.
  all: destruct listBlob as [lb|]; [|done].
  all: rewrite for_range_printf; cbn [bind].
  all: by destruct (listing_loop c svc nd fuel (NextMarker lb)).
Qed.

(** The calls of the loop: all with markers that are not done, each with
    the marker the call before returned; and a loop that returns stopped
    at a marker that is done. *)
Lemma listing_loop_calls fuel : ∀ m,
  let calls := list_calls (trace (listing_loop c svc nd fuel m)) in
  Forall (λ m', nd m' = true) calls
  ∧ chained svc calls
  ∧ (calls = [] ∨ head calls = Some m)
  ∧ (result (listing_loop c svc nd fuel m) = Returned tt →
     match last calls with
     | None => nd m = false
     | Some ml => ∃ r, (svc ml).1 = Some r ∧ nd (NextMarker r) = false
     end).
Proof.
  induction fuel as [|fuel IH]; intros m; cbn zeta.
  { cbn [listing_loop]. destruct (nd m) eqn:Hm; cbn;
      (split; [constructor|]); (split; [done|]); (split; [by left|done]). }
  destruct (nd m) eqn:Hm.
  2: { rewrite listing_loop_done by done. cbn.
       split; [constructor|]. split; [done|]. split; [by left|done]. }
  rewrite listing_loop_round by done.
  assert (Hmm : mkMarker (Val m) = m) by by destruct m.
  destruct (svc m) as [listBlob e] eqn:Hsvc. cbn zeta.
  destruct (result (handleErrors e)) as [[]|code| |] eqn:Hres.
  2-4: cbn [trace result fst snd]; change (NetList c (Val m) :: ?t) with ([NetList c (Val m)] ++ t);
       rewrite list_calls_app, list_calls_handleErrors; cbn; rewrite Hmm;
       (split; [by repeat constructor|]); (split; [done|]); (split; [by right|done]).
  destruct listBlob as [lb|].
  2: { cbn [trace result fst snd].
       change (NetList c (Val m) :: ?t) with ([NetList c (Val m)] ++ t).
       rewrite list_calls_app, list_calls_handleErrors. cbn. rewrite Hmm.
       split; [by repeat constructor|]. split; [done|]. split; [by right|done]. }
  cbn zeta. cbn [trace result fst snd].
  change (NetList c (Val m) :: ?t) with ([NetList c (Val m)] ++ t).
  rewrite !list_calls_app, list_calls_handleErrors, list_calls_printed.
  cbn [app list_calls omap list_omap]. rewrite Hmm.
  destruct (IH (NextMarker lb)) as (Hnd & Hch & Hhd & Hlast).
  set (calls := list_calls (trace (listing_loop c svc nd fuel (NextMarker lb)))) in *.
  split; [by constructor|]. split; [|split; [by right|]].
  - destruct calls as [|m' calls']; [done|]. cbn [chained]. split; [|done].
    destruct Hhd as [|[= ->]]; [done|]. exists lb. by rewrite Hsvc.
  - intros Hret. specialize (Hlast Hret).
    destruct calls as [|m' calls'].
    + cbn [last]. exists lb. by rewrite Hsvc.
    + rewrite last_cons_cons.
      destruct (last (m' :: calls')) eqn:Hl; [exact Hlast|].
      by apply last_None in Hl.
Qed.
End Loop.

(** ** The listing of a container *)

Lemma from_marker_found v pre post :
  v ∉ pre → from_marker v (pre ++ v :: post) = v :: post.
Proof.
  induction pre as [|n pre IH]; intros Hv; cbn [app from_marker].
  - by rewrite String.eqb_refl.
  - apply not_elem_of_cons in Hv as [Hne Hv].
    destruct (String.eqb_spec n v) as [->|_]; [done|]. by apply IH.
Qed.

Lemma NotDone_false m : NotDone m = false ↔ Val m = Some "".
Proof.
  destruct m as [[v|]]; unfold NotDone; cbn; [|done].
  rewrite negb_false_iff. destruct (String.eqb_spec v ""); naive_solver.
Qed.

Section Container.
Variable c : string.
Variable names : list string.
Variable K : nat.
Hypothesis names_distinct : NoDup names.
Hypothesis names_nonempty : "" ∉ names.
Hypothesis K_pos : 0 < K.

Lemma listing_from fuel : ∀ m pre rest,
  names = pre ++ rest →
  segment_start names m = rest →
  NotDone m = true →
  length rest < fuel →
  let p := listing_loop c (ListBlobsFlatSegment names K) NotDone fuel m in
  result p = Returned tt ∧ stdout_lines (trace p) = blob_line <$> rest.
Proof.
  induction fuel as [|fuel IH]; intros m pre rest Hnames Hstart Hm Hfuel; [lia|].
  assert (Hsvc : ListBlobsFlatSegment names K m =
            (Some (mkListResponse
                     (mkMarker (Some (match drop K rest with [] => "" | n :: _ => n end)))
                     (mkBlobItem <$> take K rest)), None)).
  { unfold ListBlobsFlatSegment. fold (segment_start names m). by rewrite Hstart. }
  cbn zeta. rewrite listing_loop_round by done. rewrite Hsvc.
  cbn [result trace fst snd handleErrors ret app NextMarker BlobItems].
  change (NetList c (Val m) :: ?t) with ([NetList c (Val m)] ++ t).
  rewrite !stdout_lines_app. cbn [stdout_lines omap list_omap app].
  rewrite (stdout_lines_printed (λ b, " Blob name: " +:+ Name b +:+ nl)).
  rewrite <- list_fmap_compose.
  change ((λ b, " Blob name: " +:+ Name b +:+ nl) ∘ mkBlobItem) with blob_line.
  destruct (drop K rest) as [|n post] eqn:Hdrop.
  - rewrite listing_loop_done by done. cbn [trace result fst snd stdout_lines omap list_omap].
    split; [done|]. rewrite app_nil_r. f_equal.
    apply take_ge. apply drop_nil_inv in Hdrop. lia.
  - assert (Hrest : rest = take K rest ++ n :: post).
    { by rewrite <- Hdrop, take_drop. }
    assert (Hn : n ∈ names).
    { rewrite Hnames, Hrest, !elem_of_app, elem_of_cons. by right; right; left. }
    assert (Hnot : n ∉ pre ++ take K rest).
    { rewrite Hnames, Hrest, app_assoc in names_distinct.
      apply NoDup_app in names_distinct as (_ & Hdisj & _).
      intros Hin. apply (Hdisj n Hin), list_elem_of_here. }
    destruct (IH (mkMarker (Some n)) (pre ++ take K rest) (n :: post)) as [Hres Hlines].
    + by rewrite <- app_assoc, <- Hrest.
    + unfold segment_start. cbn [Val].
      rewrite Hnames, Hrest, app_assoc. by apply from_marker_found.
    + unfold NotDone. cbn [Val]. apply negb_true_iff.
      destruct (String.eqb_spec n ""); [by subst|done].
    + assert (length rest = length (take K rest) + length (n :: post))
        by (by rewrite <- length_app, <- Hrest).
      assert (0 < length (take K rest)).
      { rewrite length_take. apply (f_equal length) in Hdrop.
        rewrite length_drop in Hdrop. cbn [length] in Hdrop. lia. }
      lia.
    + cbn zeta in Hres, Hlines. rewrite Hres, Hlines. split; [done|].
      rewrite <- fmap_app. by rewrite <- Hrest.
Qed.
End Container.

(** C4. The loop of main.go starts from the marker without a value, for
    which NotDone holds, so the first page is always asked for.  Against a
    container with distinct, non-empty blob names that is listed in pages
    of K, K at least 1, and with enough rounds allowed, the loop returns
    and has printed one line per name, in order, none left out and none
    twice.  Every call but the first passes the marker that the call
    before returned, every marker passed is not done, and the marker
    returned by the last call is done: the loop stops exactly when NotDone
    is false, which is the case for the empty marker. *)
Theorem listing_yields_every_name (c : string) (names : list string) (K fuel : nat) :
  NoDup names → "" ∉ names → 0 < K → length names < fuel →
  result (list_container c names K fuel) = Returned tt
  ∧ stdout_lines (trace (list_container c names K fuel)) = blob_line <$> names
  ∧ head (list_calls (trace (list_container c names K fuel))) = Some (mkMarker None)
  ∧ chained (ListBlobsFlatSegment names K)
            (list_calls (trace (list_container c names K fuel)))
  ∧ Forall (λ m, NotDone m = true) (list_calls (trace (list_container c names K fuel)))
  ∧ (∃ ml r, last (list_calls (trace (list_container c names K fuel))) = Some ml
             ∧ (ListBlobsFlatSegment names K ml).1 = Some r
             ∧ NotDone (NextMarker r) = false)
  ∧ (∀ m, NotDone m = false ↔ Val m = Some "").
Proof.
  intros Hnd Hne HK Hfuel. unfold list_container.
  destruct (listing_from c names K Hnd Hne HK fuel (mkMarker None) [] names)
    as [Hres Hlines]; [done..|].
  destruct (listing_loop_calls c (ListBlobsFlatSegment names K) NotDone fuel (mkMarker None))
    as (Hall & Hch & Hhd & Hlast).
  cbn zeta in *. specialize (Hlast Hres).
  split; [done|]. split; [done|].
  destruct (list_calls _) as [|m0 calls] eqn:Hcalls.
  { cbn in Hlast. done. }
  split; [by destruct Hhd|]. split; [done|]. split; [done|].
  split; [|apply NotDone_false].
  destruct (last (m0 :: calls)) as [ml|]; [|done].
  destruct Hlast as (r & Hr & Hdone). by exists ml, r.
Qed.

Lemma listing_yields_every_name_witness :
  result (list_container "c" ["a"; "b"; "d"] 2 4) = Returned tt
  ∧ stdout_lines (trace (list_container "c" ["a"; "b"; "d"] 2 4))
    = blob_line <$> ["a"; "b"; "d"]
  ∧ head (list_calls (trace (list_container "c" ["a"; "b"; "d"] 2 4)))
    = Some (mkMarker None)
  ∧ chained (ListBlobsFlatSegment ["a"; "b"; "d"] 2)
            (list_calls (trace (list_container "c" ["a"; "b"; "d"] 2 4)))
  ∧ Forall (λ m, NotDone m = true)
           (list_calls (trace (list_container "c" ["a"; "b"; "d"] 2 4)))
  ∧ (∃ ml r, last (list_calls (trace (list_container "c" ["a"; "b"; "d"] 2 4))) = Some ml
             ∧ (ListBlobsFlatSegment ["a"; "b"; "d"] 2 ml).1 = Some r
             ∧ NotDone (NextMarker r) = false)
  ∧ (∀ m, NotDone m = false ↔ Val m = Some "").
Proof.
  apply (listing_yields_every_name "c" ["a"; "b"; "d"] 2 4).
  - refine (bool_decide_unpack _ _). vm_compute. exact I.
  - refine (bool_decide_unpack _ _). vm_compute. exact I.
  - lia.
  - cbn. lia.
Defined.

(** * Further properties of main.go *)

(** ** Events of a sequence *)

Lemma Forall_trace_bind {A B} (P : event → Prop) (m : prog A) (k : A → prog B) :
  Forall P (trace m) → (∀ a, Forall P (trace (k a))) → Forall P (trace (bind m k)).
Proof.
  intros Hm Hk. rewrite trace_bind. apply Forall_app. split; [done|].
  destruct (result m); [apply Hk | constructor ..].
Qed.

Lemma Forall_trace_handleErrors (P : event → Prop) e :
  (∀ text, P (Stdout text)) → (∀ text, P (LogFatal text)) →
  Forall P (trace (handleErrors e)).
Proof.
  intros Hout Hfatal.
  destruct (handleErrors_cases e) as [-> | [-> | (e' & _ & ->)]];
    repeat constructor; done.
Qed.

Lemma Forall_trace_listing_loop (P : event → Prop) c svc nd fuel :
  (∀ text, P (Stdout text)) → (∀ text, P (LogFatal text)) →
  (∀ v, P (NetList c v)) →
  ∀ marker, Forall P (trace (listing_loop c svc nd fuel marker)).
Proof.
  intros Hout Hfatal Hlist.
  induction fuel as [|fuel IH]; intros marker; cbn [listing_loop];
    destruct (nd marker); try by constructor.
  apply Forall_trace_bind; [by repeat constructor|]. intros _.
  destruct (svc marker) as [listBlob e].
  apply Forall_trace_bind; [by apply Forall_trace_handleErrors|]. intros _.
  destruct listBlob as [listBlob|]; [|constructor].
  apply Forall_trace_bind; [|by intros _].
  rewrite for_range_printf. cbn [trace fst].
  apply Forall_fmap, Forall_forall. intros b _. apply Hout.
Qed.

(** Lines 62 to 125 produce prints, fatal logs, the Create, WriteFile, Open
    and Upload of the run, and list calls. *)
Lemma Forall_trace_setup_and_list (P : event → Prop) fuel env credentials :
  (∀ text, P (Stdout text)) → (∀ text, P (LogFatal text)) →
  P (NetCreate (containerName env)) →
  P (IoWriteFile (fileName env) data 448) →
  P (OsOpen (fileName env)) →
  P (NetUpload (containerName env) (fileName env)
       (BlockSize upload_options) (Parallelism upload_options)) →
  (∀ v, P (NetList (containerName env) v)) →
  Forall P (trace (setup_and_list fuel env credentials)).
Proof.
  intros Hout Hfatal Hcreate Hwrite Hopen Hupload Hlist.
  unfold setup_and_list.
  destruct (NewSharedKeyCredential_err _ _ _); [by repeat constructor|].
  destruct (negb _); [constructor|].
  repeat (first
    [ by apply Forall_trace_listing_loop
    | apply Forall_trace_bind;
      [first [ by apply Forall_trace_handleErrors
             | by repeat constructor ]
      | intros _] ]).
Qed.

Lemma setup_events fuel env credentials :
  Forall (λ ev, setup_event ev = true) (trace (setup_and_list fuel env credentials)).
Proof. by apply Forall_trace_setup_and_list. Qed.

(** ** Errors before the first request *)

(** X1. With both credential fields filled, an error of
    [NewSharedKeyCredential] ends the run: the message of line 65 with the
    text of the error is logged, the process exits with status 1, and no
    request went to the storage service. *)
Theorem invalid_shared_key_is_fatal (fuel : nat) (env : Env) (e : error) :
  AzureStorageAccountName (load_credentials env) ≠ "" →
  AzureStorageAccountKey (load_credentials env) ≠ "" →
  NewSharedKeyCredential_err env (AzureStorageAccountName (load_credentials env))
                                 (AzureStorageAccountKey (load_credentials env))
    = Some e →
  main fuel env =
    (preamble env ++ [LogFatal ("Invalid credentials with error: " +:+ Error e)],
     Exited 1)
  ∧ Forall (λ ev, is_network ev = false) (trace (main fuel env)).
Proof.
  intros Hname Hkey Herr.
  assert (Hmain : main fuel env =
    (preamble env ++ [LogFatal ("Invalid credentials with error: " +:+ Error e)],
     Exited 1)).
  { rewrite main_nonempty_credentials by by apply credentials_full_spec.
    unfold main_with, setup_and_list. rewrite Herr.
    cbn [bind log_Fatal trace result fst snd deferred]. by rewrite app_nil_r. }
  split; [done|]. rewrite Hmain. cbn [trace fst].
  apply Forall_app. split; [apply preamble_no_network | by repeat constructor].
Qed.

Lemma invalid_shared_key_witness :
  main 1 env_bad_key =
    (preamble env_bad_key
       ++ [LogFatal ("Invalid credentials with error: "
                     +:+ "illegal base64 data at input byte 0")],
     Exited 1)
  ∧ Forall (λ ev, is_network ev = false) (trace (main 1 env_bad_key)).
Proof.
  apply (invalid_shared_key_is_fatal 1 env_bad_key
           (mkError "illegal base64 data at input byte 0" None)).
  - vm_compute. discriminate.
  - vm_compute. discriminate.
  - reflexivity.
Defined.

(** X2. With valid credentials, when [url.Parse] returns no URL (its error
    is dropped on line 73), line 76 dereferences nil: the run panics before
    it prints the name of the container or sends a request, and the
    deferred close of the credentials file still runs. *)
Theorem unparsable_url_panics (fuel : nat) (env : Env) :
  AzureStorageAccountName (load_credentials env) ≠ "" →
  AzureStorageAccountKey (load_credentials env) ≠ "" →
  NewSharedKeyCredential_err env (AzureStorageAccountName (load_credentials env))
                                 (AzureStorageAccountKey (load_credentials env))
    = None →
  url_Parse_ok env (container_url env) = false →
  main fuel env = (preamble env ++ [FileClose "credentials.json"], Panicked).
Proof.
  intros Hname Hkey Hcred Hurl.
  rewrite main_nonempty_credentials by by apply credentials_full_spec.
  unfold main_with, setup_and_list. rewrite Hcred.
  fold (container_url env). rewrite Hurl. reflexivity.
Qed.

Lemma unparsable_url_witness :
  main 1 env_bad_url = (preamble env_bad_url ++ [FileClose "credentials.json"], Panicked).
Proof.
  apply (unparsable_url_panics 1 env_bad_url).
  - vm_compute. discriminate.
  - vm_compute. discriminate.
  - reflexivity.
  - reflexivity.
Defined.

(** ** Cleanup and the way a run ends *)

Lemma early_no_deletion t : early t → Forall (λ ev, is_deletion ev = false) t.
Proof.
  intros Ht. eapply Forall_impl; [exact Ht|]. intros ev Hev. by destruct ev.
Qed.

(** X3. The container is deleted and the local file removed exactly in
    the runs that return normally: such a run has sent the Delete for its
    container and removed its file, and a run that exits, panics or is
    still listing has done neither. *)
Theorem cleanup_exactly_when_returned (fuel : nat) (env : Env) :
  match result (main fuel env) with
  | Returned _ =>
      In (NetDelete (containerName env)) (trace (main fuel env))
      ∧ In (OsRemove (fileName env)) (trace (main fuel env))
  | _ => Forall (λ ev, is_deletion ev = false) (trace (main fuel env))
  end.
Proof.
  destruct (main_run_shape fuel env)
    as [t o -> Ht Ho | t Ht _ -> | t r e Ht _ _ -> | t r th Ht _ _ Hth ->];
    cbn [trace result fst snd].
  - destruct o as [[]| | |]; [done|by apply early_no_deletion..].
  - apply Forall_app. split; [by apply early_no_deletion|by repeat constructor].
  - apply Forall_app. split; [by apply early_no_deletion|by repeat constructor].
  - split; apply in_or_app; right; apply in_or_app; right;
      apply in_or_app; right; cbn; tauto.
Qed.

Lemma Forall_trace_download_and_cleanup (P : event → Prop) env :
  (∀ text, P (Stdout text)) → (∀ text, P (LogFatal text)) →
  P (download_event env) → P (body_event env) → P (StdinReadBytes nl) →
  P (NetDelete (containerName env)) → P (FileClose (fileName env)) →
  P (OsRemove (fileName env)) →
  Forall P (trace (download_and_cleanup env)).
Proof.
  intros Hout Hfatal Hd Hb Hgate Hdel Hclose Hrm.
  destruct (download_response env) as [r|] eqn:Hr.
  - rewrite (download_and_cleanup_some env r Hr). cbn [trace fst].
    repeat constructor; [done..|].
    apply Forall_app. split; [by apply Forall_trace_handleErrors|].
    destruct (result (handleErrors (read_error r))); by repeat constructor.
  - rewrite (download_and_cleanup_nil env Hr). by repeat constructor.
Qed.

(** Every event of a run is one of those that main.go can produce. *)
Lemma Forall_trace_main (P : event → Prop) fuel env :
  (∀ text, P (Stdout text)) → (∀ text, P (LogFatal text)) →
  P (OsOpen "credentials.json") → P (IoReadAll "credentials.json") →
  P (FileClose "credentials.json") →
  P (NetCreate (containerName env)) →
  P (IoWriteFile (fileName env) data 448) →
  P (OsOpen (fileName env)) →
  P (NetUpload (containerName env) (fileName env)
       (BlockSize upload_options) (Parallelism upload_options)) →
  (∀ v, P (NetList (containerName env) v)) →
  P (download_event env) → P (body_event env) → P (StdinReadBytes nl) →
  P (NetDelete (containerName env)) → P (FileClose (fileName env)) →
  P (OsRemove (fileName env)) →
  Forall P (trace (main fuel env)).
Proof.
  intros Hout Hfatal Hopen Hread Hclose **.
  assert (Hpre : Forall P (preamble env)).
  { unfold preamble. destruct (open_credentials_err env); by repeat constructor. }
  destruct (credentials_empty (load_credentials env)) eqn:Hcred.
  { rewrite main_empty_credentials by done. cbn [trace fst].
    apply Forall_app. split; [done|by repeat constructor]. }
  rewrite main_nonempty_credentials by done. cbn [trace fst].
  apply Forall_app. split; [done|]. apply Forall_app. split.
  - unfold main_with. apply Forall_trace_bind.
    + by apply Forall_trace_setup_and_list.
    + intros _. by apply Forall_trace_download_and_cleanup.
  - destruct (result _); by repeat constructor.
Qed.

(** ** Fatal errors come last *)

Lemma fatal_last_bind {A B} (m : prog A) (k : A → prog B) :
  fatal_last m → (∀ a, fatal_last (k a)) → fatal_last (bind m k).
Proof.
  unfold fatal_last. intros Hm Hk.
  destruct m as [t [a| | |]]; cbn [result trace fst snd] in Hm; [|done..].
  rewrite bind_returned. specialize (Hk a). cbn [result trace fst snd].
  destruct (result (k a)).
  - apply Forall_app. by split.
  - destruct Hk as (-> & t' & msg & -> & Ht'). split; [done|].
    exists (t ++ t'), msg. rewrite app_assoc. split; [done|].
    apply Forall_app. by split.
  - apply Forall_app. by split.
  - apply Forall_app. by split.
Qed.

Lemma fatal_last_quiet {A} (t : list event) (a : A) :
  Forall (λ ev, is_log_fatal ev = false) t → fatal_last (t, Returned a).
Proof. done. Qed.

Lemma fatal_last_handleErrors e : fatal_last (handleErrors e).
Proof.
  destruct (handleErrors_cases e) as [-> | [-> | (e' & _ & ->)]].
  - by apply fatal_last_quiet.
  - apply fatal_last_quiet. by repeat constructor.
  - split; [done|]. by exists [], (Error e').
Qed.

Lemma fatal_last_listing_loop c svc nd fuel :
  ∀ marker, fatal_last (listing_loop c svc nd fuel marker).
Proof.
  induction fuel as [|fuel IH]; intros marker; cbn [listing_loop];
    destruct (nd marker); try by (unfold fatal_last; cbn).
  apply fatal_last_bind; [apply fatal_last_quiet; by repeat constructor|]. intros _.
  destruct (svc marker) as [listBlob e].
  apply fatal_last_bind; [apply fatal_last_handleErrors|]. intros _.
  destruct listBlob as [listBlob|]; [|by (unfold fatal_last; cbn)].
  apply fatal_last_bind; [|by intros _].
  rewrite for_range_printf. apply fatal_last_quiet.
  apply Forall_fmap, Forall_forall. by intros b _.
Qed.

Lemma fatal_last_setup_and_list fuel env credentials :
  fatal_last (setup_and_list fuel env credentials).
Proof.
  unfold setup_and_list.
  destruct (NewSharedKeyCredential_err _ _ _) as [e|].
  { split; [done|]. by eexists [], _. }
  destruct (negb _); [by (unfold fatal_last; cbn)|].
  repeat (first
    [ apply fatal_last_listing_loop
    | apply fatal_last_bind;
      [first [ apply fatal_last_handleErrors
             | apply fatal_last_quiet; by repeat constructor ]
      | intros _] ]).
Qed.

Lemma fatal_last_download_and_cleanup env : fatal_last (download_and_cleanup env).
Proof.
  destruct (download_response env) as [r|] eqn:Hr.
  - rewrite (download_and_cleanup_some env r Hr).
    destruct (handleErrors_cases (read_error r)) as [-> | [-> | (e' & _ & ->)]];
      cbn [result trace fst snd app].
    + apply fatal_last_quiet. by repeat constructor.
    + apply fatal_last_quiet. by repeat constructor.
    + split; [done|]. exists [download_event env; body_event env], (Error e').
      split; [done|]. by repeat constructor.
  - rewrite (download_and_cleanup_nil env Hr). unfold fatal_last. cbn.
    by repeat constructor.
Qed.

(** X4. The process exits only through [log.Fatal]: a run that exits has
    status 1 and its last event is the fatal log, the only one of the run;
    a run that returns, panics or is still listing has logged nothing
    fatal.  So nothing is printed, requested or removed after a fatal
    error. *)
Theorem fatal_log_is_the_last_event (fuel : nat) (env : Env) :
  match result (main fuel env) with
  | Exited code =>
      code = 1%Z
      ∧ ∃ t msg, trace (main fuel env) = t ++ [LogFatal msg]
                 ∧ Forall (λ ev, is_log_fatal ev = false) t
  | _ => Forall (λ ev, is_log_fatal ev = false) (trace (main fuel env))
  end.
Proof.
  change (fatal_last (main fuel env)).
  assert (Hpre : Forall (λ ev, is_log_fatal ev = false) (preamble env)).
  { unfold preamble. destruct (open_credentials_err env); by repeat constructor. }
  destruct (credentials_empty (load_credentials env)) eqn:Hcred.
  { rewrite main_empty_credentials by done. split; [done|]. by eexists _, _. }
  rewrite main_nonempty_credentials by done.
  assert (Hmw : fatal_last (main_with fuel env (load_credentials env))).
  { apply fatal_last_bind; [apply fatal_last_setup_and_list|].
    intros _. apply fatal_last_download_and_cleanup. }
  unfold fatal_last in *. cbn [result trace fst snd].
  destruct (result (main_with fuel env (load_credentials env))); cbn [deferred].
  - apply Forall_app. split; [done|]. apply Forall_app. split; [done|].
    by repeat constructor.
  - destruct Hmw as (-> & t & msg & -> & Ht). split; [done|].
    exists (preamble env ++ t), msg. rewrite app_nil_r, app_assoc. split; [done|].
    apply Forall_app. by split.
  - apply Forall_app. split; [done|]. apply Forall_app. split; [done|].
    by repeat constructor.
  - rewrite app_nil_r. apply Forall_app. by split.
Qed.

(** X5. The deferred close of the credentials file is the last event of
    every run that returns or panics.  [log.Fatal] ends the process without
    running it: in a run that exits, no file was closed at all. *)
Theorem deferred_close_skipped_on_fatal (fuel : nat) (env : Env) :
  match result (main fuel env) with
  | Returned _ | Panicked =>
      last (trace (main fuel env)) = Some (FileClose "credentials.json")
  | Exited _ | OutOfFuel =>
      Forall (λ ev, is_close ev = false) (trace (main fuel env))
  end.
Proof.
  assert (Hpre : Forall (λ ev, is_close ev = false) (preamble env)).
  { unfold preamble. destruct (open_credentials_err env); by repeat constructor. }
  destruct (credentials_empty (load_credentials env)) eqn:Hcred.
  { rewrite main_empty_credentials by done. cbn [result trace fst snd].
    apply Forall_app. split; [done|by repeat constructor]. }
  rewrite main_nonempty_credentials by done. cbn [result trace fst snd].
  assert (Hsetup : Forall (λ ev, is_close ev = false)
                     (trace (setup_and_list fuel env (load_credentials env)))).
  { eapply Forall_impl; [apply setup_events|]. intros ev Hev. by destruct ev. }
  unfold main_with.
  destruct (setup_and_list fuel env (load_credentials env)) as [ts [[]|c| |]];
    cbn [trace fst] in Hsetup.
  2-4: cbn [bind result trace fst snd deferred];
       rewrite ?app_nil_r, ?app_assoc, ?last_snoc; try done; by apply Forall_app.
  rewrite bind_returned. cbn [result trace fst snd].
  destruct (download_response env) as [r|] eqn:Hr.
  - rewrite (download_and_cleanup_some env r Hr). cbn [result trace fst snd].
    destruct (handleErrors_cases (read_error r)) as [-> | [-> | (e' & _ & ->)]];
      cbn [result trace fst snd deferred].
    + by rewrite !app_assoc, last_snoc.
    + by rewrite !app_assoc, last_snoc.
    + rewrite !app_nil_r. apply Forall_app. split; [done|].
      apply Forall_app. split; [done|]. by repeat constructor.
  - rewrite (download_and_cleanup_nil env Hr). cbn [result trace fst snd deferred].
    by rewrite !app_assoc, last_snoc.
Qed.

(** ** The order of the steps *)

Lemma steps_app t1 t2 : steps (t1 ++ t2) = steps t1 ++ steps t2.
Proof. apply omap_app. Qed.

Lemma steps_bind {A B} (m : prog A) (k : A → prog B) :
  steps (trace (bind m k)) =
  steps (trace m) ++ match result m with Returned a => steps (trace (k a)) | _ => [] end.
Proof. rewrite trace_bind, steps_app. by destruct (result m). Qed.

Lemma steps_none t : Forall (λ ev, step_of ev = None) t → steps t = [].
Proof. induction 1 as [|ev t Hev _ IH]; [done|]. cbn. by rewrite Hev. Qed.

Lemma steps_handleErrors e : steps (trace (handleErrors e)) = [].
Proof. by destruct (handleErrors_cases e) as [-> | [-> | (e' & _ & ->)]]. Qed.

Lemma steps_preamble env : steps (preamble env) = [].
Proof. unfold preamble. by destruct (open_credentials_err env). Qed.

Lemma steps_deferred {A} (o : outcome A) : steps (deferred o) = [].
Proof. by destruct o. Qed.

Lemma result_handleErrors e :
  result (handleErrors e) = Returned tt ∨ result (handleErrors e) = Exited 1.
Proof.
  destruct (handleErrors_cases e) as [-> | [-> | (e' & _ & ->)]]; auto.
Qed.

(** The loop only lists. *)
Lemma steps_listing_loop c svc nd fuel : ∀ marker,
  ∃ n, steps (trace (listing_loop c svc nd fuel marker)) = replicate n StepList.
Proof.
  induction fuel as [|fuel IH]; intros marker.
  { exists 0. cbn [listing_loop]. by destruct (nd marker). }
  destruct (nd marker) eqn:Hm; [|exists 0; by rewrite listing_loop_done].
  rewrite listing_loop_round by done.
  destruct (svc marker) as [listBlob e]. cbn zeta.
  destruct (result (handleErrors e)) as [[]|code| |].
  2-4: exists 1; cbn [trace fst]; change (NetList c (Val marker) :: ?t)
         with ([NetList c (Val marker)] ++ t);
       by rewrite steps_app, steps_handleErrors.
  destruct listBlob as [lb|].
  2: { exists 1. cbn [trace fst].
       change (NetList c (Val marker) :: ?t) with ([NetList c (Val marker)] ++ t).
       by rewrite steps_app, steps_handleErrors. }
  destruct (IH (NextMarker lb)) as [n Hn]. exists (S n).
  cbn zeta. cbn [trace fst].
  change (NetList c (Val marker) :: ?t) with ([NetList c (Val marker)] ++ t).
  rewrite !steps_app, steps_handleErrors, Hn.
  rewrite (steps_none (_ <$> _)); [done|].
  apply Forall_fmap, Forall_forall. by intros b _.
Qed.

Lemma steps_setup_and_list fuel env credentials :
  ∃ n, steps (trace (setup_and_list fuel env credentials))
         `prefix_of` [StepCreate; StepWriteFile; StepUpload] ++ replicate n StepList
       ∧ (result (setup_and_list fuel env credentials) = Returned tt →
          steps (trace (setup_and_list fuel env credentials))
          = [StepCreate; StepWriteFile; StepUpload] ++ replicate n StepList).
Proof.
  destruct (steps_listing_loop (containerName env) (list_segment env) NotDone fuel
              (mkMarker None)) as [n Hn].
  exists n. unfold setup_and_list.
  destruct (NewSharedKeyCredential_err _ _ _) as [e|].
  { split; [by eexists|done]. }
  destruct (negb _); [split; [by eexists|done]|].
  rewrite !steps_bind, !result_bind, !steps_handleErrors, Hn.
  cbn [Printf Println emit trace result fst snd steps omap list_omap step_of app].
  destruct (result_handleErrors (create_err env)) as [-> | ->];
    [|split; [by eexists|done]].
  destruct (result_handleErrors (write_file_err env)) as [-> | ->];
    [|split; [by eexists|done]].
  destruct (result_handleErrors (open_file_err env)) as [-> | ->];
    [|split; [by eexists|done]].
  destruct (result_handleErrors (upload_err env)) as [-> | ->];
    [|split; [by eexists|done]].
  cbn [app]. split; [done|done].
Qed.

Lemma steps_download_and_cleanup env :
  steps (trace (download_and_cleanup env))
    `prefix_of` [StepDownload; StepBodyRead; StepGate; StepDelete; StepRemove]
  ∧ (result (download_and_cleanup env) = Returned tt →
     steps (trace (download_and_cleanup env))
     = [StepDownload; StepBodyRead; StepGate; StepDelete; StepRemove]).
Proof.
  destruct (download_response env) as [r|] eqn:Hr.
  - rewrite (download_and_cleanup_some env r Hr).
    cbn [result trace fst snd]. rewrite !steps_app, steps_handleErrors.
    destruct (result_handleErrors (read_error r)) as [-> | ->]; cbn.
    + done.
    + split; [by eexists|done].
  - rewrite (download_and_cleanup_nil env Hr). cbn. split; [by eexists|done].
Qed.

(** X6. The steps of every run are a beginning of the sequence Create,
    WriteFile, Upload, some number of list calls, Download, body read, read
    of standard input, Delete, Remove; a run that returns has done all of
    them.  So nothing is uploaded before the container is created and the
    file written, the blob is downloaded only after the listing, and
    Delete is the last request. *)
Theorem steps_in_program_order (fuel : nat) (env : Env) :
  ∃ n, steps (trace (main fuel env)) `prefix_of` full_run n
       ∧ (result (main fuel env) = Returned tt →
          steps (trace (main fuel env)) = full_run n).
Proof.
  destruct (credentials_empty (load_credentials env)) eqn:Hcred.
  { exists 0. rewrite main_empty_credentials by done. cbn [result trace fst snd].
    rewrite steps_app, steps_preamble. split; [by eexists|done]. }
  rewrite main_nonempty_credentials by done. cbn [result trace fst snd].
  destruct (steps_setup_and_list fuel env (load_credentials env)) as (n & Hpre & Hfull).
  destruct (steps_download_and_cleanup env) as [Hdpre Hdfull].
  exists n. unfold main_with.
  rewrite !steps_app, steps_preamble, steps_bind, result_bind.
  rewrite steps_deferred, app_nil_r. cbn [app]. unfold full_run.
  destruct (result (setup_and_list fuel env (load_credentials env))) as [[]|c| |].
  2-4: rewrite app_nil_r; split; [|done];
       etrans; [exact Hpre|]; rewrite app_assoc; by apply prefix_app_r.
  rewrite (Hfull eq_refl). split.
  - rewrite <- !app_assoc. cbn [app]. do 3 apply prefix_cons.
    by apply prefix_app.
  - intros Hret. rewrite (Hdfull Hret). by rewrite <- !app_assoc.
Qed.

(** ** The conflict error of Create *)

Lemma actions_app t1 t2 : actions (t1 ++ t2) = actions t1 ++ actions t2.
Proof. apply List.filter_app. Qed.

Lemma sim_refl {A} (p : prog A) : sim p p.
Proof. done. Qed.

Lemma sim_bind {A B} (m m' : prog A) (k k' : A → prog B) :
  sim m m' → (∀ a, sim (k a) (k' a)) → sim (bind m k) (bind m' k').
Proof.
  intros [Hres Hact] Hk. unfold sim.
  rewrite !result_bind, !trace_bind, !actions_app, Hres, Hact.
  destruct (result m') as [a| | |]; [|done..].
  destruct (Hk a) as [-> ->]. done.
Qed.

Lemma sim_handleErrors_conflict e :
  conflict e = true → sim (handleErrors (Some e)) (handleErrors None).
Proof.
  destruct e as [msg [code|]]; unfold conflict; cbn; [|done].
  by intros ->.
Qed.

Lemma sim_setup_and_list fuel env credentials e :
  create_err env = Some e → conflict e = true →
  sim (setup_and_list fuel env credentials)
      (setup_and_list fuel (with_create_ok env) credentials).
Proof.
  intros Hcreate Hconflict. unfold setup_and_list.
  change (NewSharedKeyCredential_err (with_create_ok env))
    with (NewSharedKeyCredential_err env).
  change (containerName (with_create_ok env)) with (containerName env).
  change (fileName (with_create_ok env)) with (fileName env).
  change (url_Parse_ok (with_create_ok env)) with (url_Parse_ok env).
  destruct (NewSharedKeyCredential_err _ _ _); [done|].
  destruct (negb _); [done|].
  apply sim_bind; [apply sim_refl|]. intros _.
  apply sim_bind; [apply sim_refl|]. intros _.
  apply sim_bind; [|intros _; apply sim_refl].
  rewrite Hcreate. by apply sim_handleErrors_conflict.
Qed.

(** X7. When Create answers with the ContainerAlreadyExists storage error,
    the run goes on with the container that exists as it would with a new
    one: it ends the same way and does the same, apart from the 409 line
    printed, as the run in which Create answered without error.  So a run
    that returns has also deleted the container it did not create. *)
Theorem create_conflict_runs_like_success (fuel : nat) (env : Env) (e : error) :
  create_err env = Some e →
  ServiceCode e = Some ServiceCodeContainerAlreadyExists →
  result (main fuel env) = result (main fuel (with_create_ok env))
  ∧ actions (trace (main fuel env))
    = actions (trace (main fuel (with_create_ok env)))
  ∧ match result (main fuel env) with
    | Returned _ => In (NetDelete (containerName env)) (trace (main fuel env))
    | _ => True
    end.
Proof.
  intros Hcreate Hcode.
  assert (Hconflict : conflict e = true).
  { unfold conflict. rewrite Hcode. apply String.eqb_refl. }
  assert (Hsim : sim (main fuel env) (main fuel (with_create_ok env))).
  { assert (Hmw : sim (main_with fuel env (load_credentials env))
                      (main_with fuel (with_create_ok env) (load_credentials env))).
    { apply sim_bind; [by eapply sim_setup_and_list|]. intros _. apply sim_refl. }
    destruct (credentials_empty (load_credentials env)) eqn:Hcred.
    - rewrite (main_empty_credentials fuel env) by done.
      rewrite (main_empty_credentials fuel (with_create_ok env)) by exact Hcred.
      done.
    - rewrite (main_nonempty_credentials fuel env) by done.
      rewrite (main_nonempty_credentials fuel (with_create_ok env)) by exact Hcred.
      change (load_credentials (with_create_ok env)) with (load_credentials env).
      change (preamble (with_create_ok env)) with (preamble env).
      destruct Hmw as [Hres Hact]. unfold sim. cbn [result trace fst snd].
      by rewrite !actions_app, Hres, Hact. }
  destruct Hsim as [Hres Hact]. split; [done|]. split; [done|].
  destruct (main_run_shape fuel env)
    as [t o -> Ht Ho | t Ht _ -> | t r e' Ht _ _ -> | t r th Ht _ _ Hth ->];
    cbn [trace result fst snd]; [by destruct o as [[]| | |]|done|done|].
  apply in_or_app; right; apply in_or_app; right;
    apply in_or_app; right; cbn; tauto.
Qed.

Lemma create_conflict_witness :
  result (main 1 env_conflict) = result (main 1 (with_create_ok env_conflict))
  ∧ actions (trace (main 1 env_conflict))
    = actions (trace (main 1 (with_create_ok env_conflict)))
  ∧ In (NetDelete (containerName env_conflict)) (trace (main 1 env_conflict)).
Proof.
  apply (create_conflict_runs_like_success 1 env_conflict conflict_error).
  - reflexivity.
  - reflexivity.
Defined.

(** ** A listing without end *)

(** X8. The loop has no way out but a marker that is done, a fatal error
    or a nil answer: against a service that answers every call with a page
    and a marker that is not done, the loop is still running after any
    number of rounds, one list call per round. *)
Theorem listing_needs_a_done_marker
    (c : string) (svc : Marker → option ListBlobsFlatSegmentResponse * err)
    (fuel : nat) (marker : Marker) :
  (∀ m, ∃ r, svc m = (Some r, None) ∧ NotDone (NextMarker r) = true) →
  NotDone marker = true →
  result (listing_loop c svc NotDone fuel marker) = OutOfFuel
  ∧ length (list_calls (trace (listing_loop c svc NotDone fuel marker))) = fuel.
Proof.
  intros Hsvc. revert marker.
  induction fuel as [|fuel IH]; intros marker Hm.
  { cbn [listing_loop]. by rewrite Hm. }
  rewrite listing_loop_round by done.
  destruct (Hsvc marker) as (r & -> & Hnext). cbn zeta.
  cbn [handleErrors ret result trace fst snd app].
  destruct (IH (NextMarker r) Hnext) as [Hres Hlen]. split; [done|].
  change (NetList c (Val marker) :: ?t) with ([NetList c (Val marker)] ++ t).
  rewrite !list_calls_app, list_calls_printed. cbn [app list_calls omap list_omap length].
  by rewrite Hlen.
Qed.

Lemma listing_needs_a_done_marker_witness :
  result (listing_loop "c" endless_segment NotDone 7 (mkMarker None)) = OutOfFuel
  ∧ length (list_calls (trace (listing_loop "c" endless_segment NotDone 7 (mkMarker None))))
    = 7.
Proof.
  apply (listing_needs_a_done_marker "c" endless_segment 7 (mkMarker None)).
  - intros m. eexists. split; reflexivity.
  - reflexivity.
Defined.

(** ** Names *)

Lemma is_digit_pretty_N_char x : is_digit (pretty_N_char x) = true.
Proof. unfold pretty_N_char. by repeat case_match. Qed.

Lemma numeral_start_pretty_N_go x : ∀ s,
  numeral_start s = true → numeral_start (pretty_N_go x s) = true.
Proof.
  induction (N.lt_wf_0 x) as [x _ IH]; intros s Hs.
  assert (x = 0 ∨ 0 < x)%N as [->|Hx] by lia; [by rewrite pretty_N_go_0|].
  rewrite pretty_N_go_step by done. apply IH; [by apply N.div_lt|].
  cbn. by rewrite is_digit_pretty_N_char.
Qed.

Lemma numeral_start_pretty_N (x : N) : numeral_start (pretty x) = true.
Proof.
  unfold pretty, pretty_N. case_decide as Hx; [done|].
  rewrite pretty_N_go_step by lia. apply numeral_start_pretty_N_go.
  cbn. by rewrite is_digit_pretty_N_char.
Qed.

(** [strconv.Itoa] writes a digit or a minus sign first. *)
Lemma numeral_start_pretty_Z (z : Z) : numeral_start (pretty z) = true.
Proof.
  destruct z as [|p|p]; [done| |done].
  apply (numeral_start_pretty_N (Npos p)).
Qed.

(** X9. The names of a run are told apart by the random integers alone:
    two runs have the same container name exactly when [r.Int()] gave the
    same integer in both, and likewise for the name of the sample file. *)
Theorem names_collide_only_with_the_random_integer (env1 env2 : Env) :
  (containerName env1 = containerName env2
   ↔ rand_Int env1 (UnixNano_container env1) = rand_Int env2 (UnixNano_container env2))
  ∧ (fileName env1 = fileName env2
     ↔ rand_Int env1 (UnixNano_file env1) = rand_Int env2 (UnixNano_file env2)).
Proof.
  unfold containerName, fileName, randomString. split; split.
  - intros Heq. by apply (inj (String.app "quickstart-")), (inj pretty) in Heq.
  - by intros ->.
  - intros Heq. by apply (inj pretty) in Heq.
  - by intros ->.
Qed.

(** X10. The sample file is never the credentials file: its name starts
    with a digit or a minus sign, so no run writes to credentials.json or
    removes it. *)
Theorem credentials_file_is_never_written_or_removed (fuel : nat) (env : Env) :
  fileName env ≠ "credentials.json"
  ∧ Forall (λ ev, match ev with
                  | IoWriteFile path _ _ | OsRemove path => path ≠ "credentials.json"
                  | _ => True
                  end) (trace (main fuel env)).
Proof.
  assert (Hname : fileName env ≠ "credentials.json").
  { intros Heq. pose proof (numeral_start_pretty_Z (rand_Int env (UnixNano_file env))) as Hs.
    unfold fileName, randomString in Heq. rewrite Heq in Hs. discriminate Hs. }
  split; [done|]. by apply Forall_trace_main.
Qed.

(** X11. A run works on one container and one blob: every request names
    the container of line 70, the upload, the download and the body read
    name the blob of the sample file, and the only files opened, written,
    closed or removed are credentials.json and the sample file. *)
Theorem one_container_one_blob (fuel : nat) (env : Env) :
  Forall (names_ok env) (trace (main fuel env)).
Proof. apply Forall_trace_main; cbn; auto. Qed.

(** ** The list calls of a run *)

Lemma list_calls_bind {A B} (m : prog A) (k : A → prog B) :
  list_calls (trace (bind m k)) =
  list_calls (trace m)
    ++ match result m with Returned a => list_calls (trace (k a)) | _ => [] end.
Proof. rewrite trace_bind, list_calls_app. by destruct (result m). Qed.

Lemma list_calls_none t :
  Forall (λ ev, step_of ev ≠ Some StepList) t → list_calls t = [].
Proof.
  induction 1 as [|ev t Hev _ IH]; [done|]. destruct ev; cbn in *; done.
Qed.

Lemma list_calls_setup_and_list fuel env credentials :
  list_calls (trace (setup_and_list fuel env credentials)) = []
  ∨ list_calls (trace (setup_and_list fuel env credentials))
    = list_calls (trace (listing_loop (containerName env) (list_segment env)
                           NotDone fuel (mkMarker None))).
Proof.
  unfold setup_and_list.
  destruct (NewSharedKeyCredential_err _ _ _) as [e|]; [by left|].
  destruct (negb _); [by left|].
  rewrite !list_calls_bind, ?result_bind, !list_calls_handleErrors.
  cbn [Printf Println emit trace result fst snd list_calls omap list_omap app].
  destruct (result_handleErrors (create_err env)) as [-> | ->]; [|by left].
  destruct (result_handleErrors (write_file_err env)) as [-> | ->]; [|by left].
  destruct (result_handleErrors (open_file_err env)) as [-> | ->]; [|by left].
  destruct (result_handleErrors (upload_err env)) as [-> | ->]; [|by left].
  by right.
Qed.

Lemma list_calls_main fuel env :
  list_calls (trace (main fuel env)) = []
  ∨ list_calls (trace (main fuel env))
    = list_calls (trace (listing_loop (containerName env) (list_segment env)
                           NotDone fuel (mkMarker None))).
Proof.
  assert (Hpre : list_calls (preamble env) = []).
  { unfold preamble. by destruct (open_credentials_err env). }
  destruct (credentials_empty (load_credentials env)) eqn:Hcred.
  { left. rewrite main_empty_credentials by done. cbn [trace fst].
    by rewrite list_calls_app, Hpre. }
  rewrite main_nonempty_credentials by done. cbn [trace fst].
  unfold main_with. rewrite !list_calls_app, Hpre, list_calls_bind.
  rewrite (list_calls_none (deferred _)) by (destruct (result _); by repeat constructor).
  rewrite (list_calls_none (trace (download_and_cleanup env)))
    by by apply Forall_trace_download_and_cleanup.
  cbn [app]. rewrite app_nil_r.
  replace (match result (setup_and_list fuel env (load_credentials env)) with
           | Returned _ => [] | _ => []
           end) with (@nil Marker) by by destruct (result _).
  rewrite app_nil_r. apply list_calls_setup_and_list.
Qed.

(** X12. Whatever the list calls answer, a run makes them the way the
    loop of main.go prescribes: the first carries the marker without a
    value, every later one carries the marker that the call before
    returned, and no call is made with a marker that is done. *)
Theorem list_calls_pass_the_marker_back (fuel : nat) (env : Env) :
  (list_calls (trace (main fuel env)) = []
   ∨ head (list_calls (trace (main fuel env))) = Some (mkMarker None))
  ∧ chained (list_segment env) (list_calls (trace (main fuel env)))
  ∧ Forall (λ m, NotDone m = true) (list_calls (trace (main fuel env))).
Proof.
  destruct (list_calls_main fuel env) as [-> | ->].
  { split; [by left|]. split; [done|constructor]. }
  destruct (listing_loop_calls (containerName env) (list_segment env) NotDone fuel
              (mkMarker None)) as (Hall & Hch & Hhd & _).
  done.
Qed.
